(** * copy-type: a verification development

    The repository is a VS Code extension that copies the inferred type of
    the symbol under the cursor.  Three variants of the extension live in the
    sources:

    - the _rich_ variant ([copy-type.copyTypeAtCursor], session state with a
      file cache and a version table, bounded directory walk, tightest-node
      resolver with a one-level parent fallback);
    - the _simple_ variant ([copy-type.copyVariableType], constant script
      version, greedy resolver);
    - the _hover_ variant (last-hover cache reused by the copy command).

    The TypeScript engine, the file system and the editor host are external
    collaborators; they appear as section variables or as explicit
    arguments.  The one property assumed of the engine is named where it is
    used ([markerIsStable]). *)

From Stdlib Require Import ZArith List String Ascii Bool Lia DecimalString.
From Stdlib Require Import DecimalPos DecimalN.
From stdpp Require Import base gmap strings list.

Set Warnings "-register-all".

Local Open Scope string_scope.
Local Open Scope list_scope.
Local Open Scope nat_scope.

(** ** JavaScript helpers *)

(** A string used as a condition: only the empty string is falsy. *)
Definition truthy (s : string) : bool := negb (String.eqb s "").

(** [xs.includes(s)] on an array of strings. *)
Definition includes (xs : list string) (s : string) : bool :=
  existsb (String.eqb s) xs.

(** [name.startsWith('.')] *)
Definition startsWithDot (name : string) : bool :=
  match name with
  | String c _ => Ascii.eqb c "."%char
  | EmptyString => false
  end.

(** A position in the editor. *)
Record Position := { line : N; character : N }.

(** What the extension reads from a [vscode.TextDocument]. *)
Record Document := {
  fsPath : string;
  getText : string;
  (** [vscode.workspace.getWorkspaceFolder(document.uri)?.uri.fsPath] *)
  workspaceFolder : option string;
  offsetAt : Position -> N
}.

(** What the extension reads from the active [vscode.TextEditor]:
    the text of the selection, the active end of the selection, and the word
    range at a position (its start and its text). *)
Record Editor := {
  document : Document;
  selectionText : string;
  selectionActive : Position;
  wordRangeAt : Position -> option (Position * string)
}.

(** A call either returns or throws (for an [async] function: resolves or
    rejects). *)
Inductive completion (A : Type) :=
| Returns (a : A)
| Throws.
Arguments Returns {A} a.
Arguments Throws {A}.

(** What a command does to the host: a text written to the clipboard and
    the notifications shown.  [Progress] is a report to the progress
    notification, [Resolved] records a call of the type resolver. *)
Inductive effect :=
| ClipboardWrite (text : string)
| ShowInformationMessage (text : string)
| ShowWarningMessage (text : string)
| ShowErrorMessage (text : string)
| Progress (text : string)
| Resolved (position : Position).

(** The double quote character. *)
Definition dquote : string := String (ascii_of_nat 34) EmptyString.

(** ** Source-file enumeration (rich variant, [getAllTsFiles]) *)

Module Enumerate.

(** What [fs.readdirSync(dir, { withFileTypes: true })] can report.  A
    directory either lists its entries or makes [readdirSync] throw; an entry
    that is neither a file nor a directory (a symbolic link, a socket) is
    [OtherEnt]. *)
Inductive Dirent :=
| FileEnt (name : string)
| DirEnt (name : string) (content : Listing)
| OtherEnt (name : string)
with Listing :=
| Unreadable
| Entries (es : list Dirent).

Definition maxDepth : nat := 10.
Definition maxFiles : nat := 1000.

Definition skipDirs : list string :=
  [ "node_modules"; ".git"; "dist"; "build"; ".vscode";
    ".next"; ".nuxt"; "coverage"; ".nyc_output";
    "tmp"; "temp"; ".cache"; ".parcel-cache" ].

Definition sourceExts : list string := [ ".ts"; ".tsx"; ".js"; ".jsx" ].

(** Ghost events: every call of [readdirSync] and every recursive call made
    for a sub-directory entry. *)
Inductive event :=
| Readdir (dir : string) (depth : nat)
| Descend (name : string) (depth : nat).

(** The array [files] shared by all recursive calls, and the ghost trace. *)
Record walk := { files : list string; trace : list event }.

Definition push (p : string) (w : walk) : walk :=
  {| files := files w ++ [p]; trace := trace w |}.

Definition log (e : event) (w : walk) : walk :=
  {| files := files w; trace := trace w ++ [e] |}.

Definition full (w : walk) : bool := maxFiles <? length (files w).

Section Walk.

(** Node's [path.join] and [path.extname]. *)
Variable join : string -> string -> string.
Variable extname : string -> string.

Fixpoint searchFiles (dir : string) (l : Listing) (depth : nat) (w : walk)
  {struct l} : walk :=
  if (maxDepth <? depth) || full w then w
  else
    match l with
    | Unreadable => log (Readdir dir depth) w
    | Entries es =>
        (fix loop (es : list Dirent) (w : walk) {struct es} : walk :=
           match es with
           | [] => w
           | e :: es' =>
               if full w then w
               else
                 match e with
                 | DirEnt name sub =>
                     if negb (includes skipDirs name) && negb (startsWithDot name)
                     then loop es' (searchFiles (join dir name) sub (S depth)
                                      (log (Descend name (S depth)) w))
                     else loop es' w
                 | FileEnt name =>
                     if includes sourceExts (extname name)
                     then loop es' (push (join dir name) w)
                     else loop es' w
                 | OtherEnt _ => loop es' w
                 end
           end) es (log (Readdir dir depth) w)
    end.

(** The [for] loop of [searchFiles], as a function of its own. *)
Fixpoint loopEntries (dir : string) (depth : nat) (es : list Dirent) (w : walk)
  : walk :=
  match es with
  | [] => w
  | e :: es' =>
      if full w then w
      else
        match e with
        | DirEnt name sub =>
            if negb (includes skipDirs name) && negb (startsWithDot name)
            then loopEntries dir depth es'
                   (searchFiles (join dir name) sub (S depth)
                      (log (Descend name (S depth)) w))
            else loopEntries dir depth es' w
        | FileEnt name =>
            if includes sourceExts (extname name)
            then loopEntries dir depth es' (push (join dir name) w)
            else loopEntries dir depth es' w
        | OtherEnt _ => loopEntries dir depth es' w
        end
  end.

Definition getAllTsFiles_walk (rootPath : string) (root : Listing) : walk :=
  searchFiles rootPath root 0 {| files := []; trace := [] |}.

Definition getAllTsFiles (rootPath : string) (root : Listing) : list string :=
  files (getAllTsFiles_walk rootPath root).

End Walk.

End Enumerate.

(** ** Node resolution ([findMostSpecificNodeAtPosition], [findNodeAtPosition]) *)

Module Resolve.

(** A syntax node of the parsed file: its kind, the range
    [[getStart(), getEnd())] and the children [ts.forEachChild] visits, in
    order.  Offsets are non-negative integers. *)
Inductive Node :=
| mkNode (kind : nat) (nstart nend : N) (children : list Node).

Definition kind (n : Node) : nat := let (k, _, _, _) := n in k.
Definition getStart (n : Node) : N := let (_, s, _, _) := n in s.
Definition getEnd (n : Node) : N := let (_, _, e, _) := n in e.
Definition children (n : Node) : list Node := let (_, _, _, cs) := n in cs.

(** [position >= start && position < end] *)
Definition covers (position : N) (n : Node) : bool :=
  ((getStart n <=? position) && (position <? getEnd n))%N.

(** [bestEnd] starts at [Infinity]. *)
Inductive bound :=
| Fin (e : N)
| Infinity.

Definition ltBound (e : N) (b : bound) : bool :=
  match b with
  | Fin e' => (e <? e')%N
  | Infinity => true
  end.

(** The three variables captured by [visit]. *)
Record best := { result : option Node; bestStart : Z; bestEnd : bound }.

Definition initial : best :=
  {| result := None; bestStart := (-1)%Z; bestEnd := Infinity |}.

(** [start > bestStart || (start === bestStart && end < bestEnd)] *)
Definition morePrecise (n : Node) (b : best) : bool :=
  (bestStart b <? Z.of_N (getStart n))%Z
  || ((Z.of_N (getStart n) =? bestStart b)%Z && ltBound (getEnd n) (bestEnd b)).

Definition consider (b : best) (n : Node) : best :=
  if morePrecise n b
  then {| result := Some n;
          bestStart := Z.of_N (getStart n);
          bestEnd := Fin (getEnd n) |}
  else b.

(** [visit]: the callback returns nothing, so [forEachChild] runs over all
    the children. *)
Fixpoint visit (position : N) (node : Node) (b : best) {struct node} : best :=
  match node with
  | mkNode _ s e cs =>
      if ((s <=? position) && (position <? e))%N
      then fold_left (fun b' c => visit position c b') cs (consider b node)
      else b
  end.

Definition findMostSpecificNodeAtPosition (sourceFile : Node) (position : N)
  : option Node :=
  result (visit position sourceFile initial).

(** [ts.forEachChild(node, cb)]: the first truthy result of the callback. *)
Fixpoint forEachChild {A} (cb : Node -> option A) (cs : list Node) : option A :=
  match cs with
  | [] => None
  | c :: cs' =>
      match cb c with
      | Some r => Some r
      | None => forEachChild cb cs'
      end
  end.

(** [find] of the simple variant: [ts.forEachChild(node, find) || node]. *)
Fixpoint find (position : N) (node : Node) {struct node} : option Node :=
  match node with
  | mkNode _ s e cs =>
      if ((s <=? position) && (position <? e))%N
      then
        match forEachChild (find position) cs with
        | Some r => Some r
        | None => Some node
        end
      else None
  end.

Definition findNodeAtPosition (sourceFile : Node) (position : N) : option Node :=
  find position sourceFile.

(** The nodes [visit] reaches: a node is reached when its range and the
    range of each of its ancestors contain the offset. *)
Fixpoint candidates (position : N) (node : Node) {struct node} : list Node :=
  match node with
  | mkNode _ s e cs =>
      if ((s <=? position) && (position <? e))%N
      then node :: flat_map (candidates position) cs
      else []
  end.

(** All the nodes of a tree, in pre-order. *)
Fixpoint nodes (node : Node) : list Node :=
  match node with
  | mkNode _ _ _ cs => node :: flat_map nodes cs
  end.

(** [tighter n m]: [n] is strictly preferred to [m] (greater start, or the
    same start and a smaller end). *)
Definition tighter (n m : Node) : Prop :=
  (getStart m < getStart n)%N
  \/ (getStart n = getStart m /\ (getEnd n < getEnd m)%N).

(** Siblings come in source order and do not overlap. *)
Fixpoint ordered (cs : list Node) : Prop :=
  match cs with
  | [] => True
  | c :: cs' =>
      Forall (fun d => (getEnd c <= getStart d)%N) cs' /\ ordered cs'
  end.

(** A tree as the parser builds it: every child lies within the range of
    its parent, and siblings do not overlap. *)
Fixpoint wellFormed (node : Node) : Prop :=
  match node with
  | mkNode _ s e cs =>
      ordered cs
      /\ (fix all (cs : list Node) : Prop :=
            match cs with
            | [] => True
            | c :: cs' =>
                ((s <= getStart c)%N /\ (getEnd c <= e)%N /\ wellFormed c)
                /\ all cs'
            end) cs
  end.

Definition isLeaf (n : Node) : Prop := children n = [].

End Resolve.

(** ** The analysis session of the rich variant *)

Module Session.

(** The file system as the extension sees it during one call. *)
Record FS := {
  existsSync : string -> bool;
  (** [None]: [readFileSync] throws *)
  readFileSync : string -> option string;
  (** what [readdirSync] reports below a root path *)
  readdir : string -> Enumerate.Listing
}.

(** The compiler options [initializeTypeScriptService] ends up with: the
    built-in defaults, or what the engine parsed from the [tsconfig.json]
    found by [findTsConfig]. *)
Inductive CompilerOptions :=
| DefaultOptions
| ParsedOptions (tsconfigPath : string).

(** The host object handed to the engine; its callbacks close over the
    file list, the root path and the options. *)
Record Host := {
  scriptFileNames : list string;
  currentDirectory : string;
  compilationSettings : CompilerOptions
}.

(** Engine handles, identified by what they were created from. *)
Record Service := { serviceOf : Host }.
Record Program := { programOf : Service }.
Record Checker := { checkerOf : Program }.

(** What the engine does during one [getProgram()]: the files it asks the
    host a snapshot for, in order, and whether it hands out a program and a
    type checker (the source guards both with [|| null]). *)
Record EngineRun := {
  reads : list string;
  hasProgram : bool;
  hasChecker : bool
}.

(** The module-level variables.  A version is a positive integer counter. *)
Record session := {
  languageService : option Service;
  program : option Program;
  typeChecker : option Checker;
  fileCache : gmap string string;
  fileVersions : gmap string N;
  isServiceInitialized : bool;
  currentWorkspaceRoot : option string;
  serviceHost : option Host
}.

Definition activated : session :=
  {| languageService := None; program := None; typeChecker := None;
     fileCache := ∅; fileVersions := ∅;
     isServiceInitialized := false; currentWorkspaceRoot := None;
     serviceHost := None |}.

Definition setFiles (c : gmap string string) (v : gmap string N) (st : session)
  : session :=
  {| languageService := languageService st; program := program st;
     typeChecker := typeChecker st;
     fileCache := c; fileVersions := v;
     isServiceInitialized := isServiceInitialized st;
     currentWorkspaceRoot := currentWorkspaceRoot st;
     serviceHost := serviceHost st |}.

(** [fileVersions.get(fileName) || 1] *)
Definition versionOr1 (v : option N) : N :=
  match v with
  | Some n => if (n =? 0)%N then 1%N else n
  | None => 1%N
  end.

Definition versionNumber (st : session) (fileName : string) : N :=
  versionOr1 (fileVersions st !! fileName).

(** [getScriptVersion]: the version as a decimal string. *)
Definition getScriptVersion (st : session) (fileName : string) : string :=
  NilZero.string_of_uint (N.to_uint (versionNumber st fileName)).

(** [getScriptSnapshot]: the text handed to the engine ([None] for
    [undefined]) and the session afterwards.  [!content] holds for a missing
    entry and for the empty string. *)
Definition getScriptSnapshot (fs : FS) (fileName : string) (st : session)
  : option string * session :=
  if negb (existsSync fs fileName) then (None, st)
  else
    match fileCache st !! fileName with
    | Some content =>
        if truthy content then (Some content, st)
        else
          match readFileSync fs fileName with
          | Some content' =>
              (Some content',
               setFiles (<[fileName := content']> (fileCache st))
                        (<[fileName := 1%N]> (fileVersions st)) st)
          | None => (None, st)
          end
    | None =>
        match readFileSync fs fileName with
        | Some content' =>
            (Some content',
             setFiles (<[fileName := content']> (fileCache st))
                      (<[fileName := 1%N]> (fileVersions st)) st)
        | None => (None, st)
        end
    end.

(** The host callbacks the engine makes while it builds or refreshes the
    program. *)
Definition engineReads (fs : FS) (names : list string) (st : session) : session :=
  fold_left (fun s f => snd (getScriptSnapshot fs f s)) names st.

Section Paths.

Variable join : string -> string -> string.
Variable extname : string -> string.
(** [findTsConfig] followed by the engine's parsing of the manifest. *)
Variable resolveOptions : FS -> string -> CompilerOptions.

Definition initializeTypeScriptService (fs : FS) (run : EngineRun)
  (rootPath : string) (st : session) : session :=
  let compilerOptions := resolveOptions fs rootPath in
  let files := Enumerate.getAllTsFiles join extname rootPath (readdir fs rootPath) in
  let host := {| scriptFileNames := files;
                 currentDirectory := rootPath;
                 compilationSettings := compilerOptions |} in
  let service := {| serviceOf := host |} in
  let st1 := engineReads fs (reads run) st in
  let prog := if hasProgram run then Some {| programOf := service |} else None in
  let checker :=
    match prog with
    | Some p => if hasChecker run then Some {| checkerOf := p |} else None
    | None => None
    end in
  {| languageService := Some service; program := prog; typeChecker := checker;
     fileCache := fileCache st1; fileVersions := fileVersions st1;
     isServiceInitialized := isServiceInitialized st1;
     currentWorkspaceRoot := currentWorkspaceRoot st1;
     serviceHost := Some host |}.

(** [!isServiceInitialized || currentWorkspaceRoot !== rootPath] *)
Definition needsInit (rootPath : string) (st : session) : bool :=
  negb (isServiceInitialized st)
  || negb (bool_decide (currentWorkspaceRoot st = Some rootPath)).

(** Lines 96-105 of [getVariableType]. *)
Definition ensureService (fs : FS) (run : EngineRun) (rootPath : string)
  (st : session) : session :=
  if needsInit rootPath st
  then
    let st1 := initializeTypeScriptService fs run rootPath st in
    {| languageService := languageService st1; program := program st1;
       typeChecker := typeChecker st1;
       fileCache := fileCache st1; fileVersions := fileVersions st1;
       isServiceInitialized := true;
       currentWorkspaceRoot := Some rootPath;
       serviceHost := serviceHost st1 |}
  else st.

End Paths.

(** Lines 116-124 of [getVariableType]: the text update policy. *)
Definition updateFileCache (fileName currentContent : string) (st : session)
  : session :=
  let cachedContent := fileCache st !! fileName in
  if negb (bool_decide (cachedContent = Some currentContent))
  then
    let currentVersion := versionOr1 (fileVersions st !! fileName) in
    setFiles (<[fileName := currentContent]> (fileCache st))
             (<[fileName := (currentVersion + 1)%N]> (fileVersions st)) st
  else st.

(** [deactivate] *)
Definition deactivate (st : session) : session := activated.

(** The flags [typeToString] is called with. *)
Inductive TypeFormatFlag :=
| InTypeAlias
| NoTruncation
| WriteArrayAsGenericType
| UseStructuralFallback
| WriteTypeArgumentsOfSignature
| UseAliasDefinedOutsideCurrentScope.

Definition formatFlags : list TypeFormatFlag :=
  [ InTypeAlias; NoTruncation; WriteArrayAsGenericType; UseStructuralFallback;
    WriteTypeArgumentsOfSignature; UseAliasDefinedOutsideCurrentScope ].

Section TypeQuery.

(** The engine's type objects, compared by identity, and its queries. *)
Context {TypeObj : Type} `{EqDecision TypeObj}.
Variable parent : Resolve.Node -> option Resolve.Node.
Variable getTypeAtLocation : Resolve.Node -> option TypeObj.
Variable typeToString :
  TypeObj -> Resolve.Node -> list TypeFormatFlag -> string.

(** Ghost log of the calls made on the type checker. *)
Inductive call :=
| GetTypeAtLocation (n : Resolve.Node)
| TypeToString (t : TypeObj) (n : Resolve.Node).

(** Lines 160-198 of [getVariableType].  The two branches on
    [type.flags & ts.TypeFlags.Object] make the same call. *)
Definition renderType (node : Resolve.Node) (type : TypeObj)
  : string * list call :=
  let typeString := typeToString type node formatFlags in
  let log := [TypeToString type node] in
  if String.eqb typeString "any" then
    match parent node with
    | Some p =>
        let log := log ++ [GetTypeAtLocation p] in
        match getTypeAtLocation p with
        | Some parentType =>
            if negb (bool_decide (parentType = type)) then
              let parentTypeString := typeToString parentType p formatFlags in
              let log := log ++ [TypeToString parentType p] in
              if negb (String.eqb parentTypeString "any")
              then (parentTypeString, log)
              else (typeString, log)
            else (typeString, log)
        | None => (typeString, log)
        end
    | None => (typeString, log)
    end
  else (typeString, log).

(** Lines 139-198 of [getVariableType]. *)
Definition typeAtOffset (sourceFile : Resolve.Node) (offset : N)
  : option string * list call :=
  match Resolve.findMostSpecificNodeAtPosition sourceFile offset with
  | None => (None, [])
  | Some node =>
      match getTypeAtLocation node with
      | None => (None, [GetTypeAtLocation node])
      | Some type =>
          let (typeString, log) := renderType node type in
          (Some typeString, GetTypeAtLocation node :: log)
      end
  end.

Variable join : string -> string -> string.
Variable extname : string -> string.
Variable resolveOptions : FS -> string -> CompilerOptions.
(** [languageService.getProgram()?.getSourceFile(fileName)] *)
Variable getSourceFile : string -> option Resolve.Node.

(** [getVariableType].  [run1] is the engine's behaviour when the service is
    (re-)initialized, [run2] its behaviour at the [getProgram()] of line 129.
    The engine calls are total here, so the [catch] branch is not taken. *)
Definition getVariableType (fs : FS) (run1 run2 : EngineRun)
  (document : Document) (position : Position) (st : session)
  : option string * session :=
  match workspaceFolder document with
  | None => (None, st)
  | Some rootPath =>
      let st1 := ensureService join extname resolveOptions fs run1 rootPath st in
      match languageService st1, typeChecker st1 with
      | Some _, Some _ =>
          let fileName := fsPath document in
          let st2 := updateFileCache fileName (getText document) st1 in
          let st3 := engineReads fs (reads run2) st2 in
          if hasProgram run2 then
            match getSourceFile fileName with
            | None => (None, st3)
            | Some sourceFile =>
                (fst (typeAtOffset sourceFile (offsetAt document position)), st3)
            end
          else (None, st3)
      | _, _ => (None, st1)
      end
  end.

End TypeQuery.

End Session.

(** ** The simple variant *)

Module Simple.

Import Session(FS, existsSync, readFileSync, readdir, CompilerOptions, Host,
               Service, Program, Checker, EngineRun, reads, hasProgram,
               hasChecker, TypeFormatFlag).

Record state := {
  languageService : option Service;
  program : option Program;
  typeChecker : option Checker;
  fileCache : gmap string string
}.

Definition activated : state :=
  {| languageService := None; program := None; typeChecker := None;
     fileCache := ∅ |}.

Definition setCache (c : gmap string string) (st : state) : state :=
  {| languageService := languageService st; program := program st;
     typeChecker := typeChecker st; fileCache := c |}.

(** [getScriptVersion: (fileName) => '1'] *)
Definition getScriptVersion (fileName : string) : string := "1".

(** [getScriptSnapshot]; [readFileSync] is not guarded here. *)
Definition getScriptSnapshot (fs : FS) (fileName : string)
  (cache : gmap string string) : completion (option string) * gmap string string :=
  if negb (existsSync fs fileName) then (Returns None, cache)
  else
    match cache !! fileName with
    | Some content =>
        if truthy content then (Returns (Some content), cache)
        else
          match readFileSync fs fileName with
          | Some content' => (Returns (Some content'), <[fileName := content']> cache)
          | None => (Throws, cache)
          end
    | None =>
        match readFileSync fs fileName with
        | Some content' => (Returns (Some content'), <[fileName := content']> cache)
        | None => (Throws, cache)
        end
    end.

(** The snapshot requests of one [getProgram()]; a throwing callback ends
    it. *)
Fixpoint engineReads (fs : FS) (names : list string) (cache : gmap string string)
  : completion unit * gmap string string :=
  match names with
  | [] => (Returns tt, cache)
  | f :: names' =>
      match getScriptSnapshot fs f cache with
      | (Returns _, cache') => engineReads fs names' cache'
      | (Throws, cache') => (Throws, cache')
      end
  end.

Definition skipDirs : list string :=
  [ "node_modules"; ".git"; "dist"; "build"; ".vscode" ].

Definition sourceExts : list string := [ ".ts"; ".tsx"; ".js"; ".jsx"; ".vue" ].

Definition flags : list TypeFormatFlag :=
  [ Session.InTypeAlias; Session.NoTruncation ].

Section Variant.

Variable join : string -> string -> string.
Variable extname : string -> string.
Variable resolveOptions : FS -> string -> CompilerOptions.

(** [getAllTsFiles] of this variant: no bound on depth or count. *)
Fixpoint searchFiles (dir : string) (l : Enumerate.Listing) (files : list string)
  {struct l} : list string :=
  match l with
  | Enumerate.Unreadable => files
  | Enumerate.Entries es =>
      (fix loop (es : list Enumerate.Dirent) (files : list string) {struct es}
         : list string :=
         match es with
         | [] => files
         | e :: es' =>
             match e with
             | Enumerate.DirEnt name sub =>
                 if negb (includes skipDirs name)
                 then loop es' (searchFiles (join dir name) sub files)
                 else loop es' files
             | Enumerate.FileEnt name =>
                 if includes sourceExts (extname name)
                 then loop es' (files ++ [join dir name])
                 else loop es' files
             | Enumerate.OtherEnt _ => loop es' files
             end
         end) es files
  end.

Definition getAllTsFiles (rootPath : string) (root : Enumerate.Listing)
  : list string :=
  searchFiles rootPath root [].

Definition initializeTypeScriptService (fs : FS) (run : EngineRun)
  (document : Document) (st : state) : completion unit * state :=
  match workspaceFolder document with
  | None => (Throws, st)
  | Some rootPath =>
      let compilerOptions := resolveOptions fs rootPath in
      let files := getAllTsFiles rootPath (readdir fs rootPath) in
      let host := {| Session.scriptFileNames := files;
                     Session.currentDirectory := rootPath;
                     Session.compilationSettings := compilerOptions |} in
      let service := {| Session.serviceOf := host |} in
      match engineReads fs (reads run) (fileCache st) with
      | (Throws, cache) =>
          (Throws,
           {| languageService := Some service; program := program st;
              typeChecker := typeChecker st; fileCache := cache |})
      | (Returns _, cache) =>
          let prog :=
            if hasProgram run
            then Some {| Session.programOf := service |} else None in
          let checker :=
            match prog with
            | Some p =>
                if hasChecker run
                then Some {| Session.checkerOf := p |} else None
            | None => None
            end in
          (Returns tt,
           {| languageService := Some service; program := prog;
              typeChecker := checker;
              fileCache := <[fsPath document := getText document]> cache |})
      end
  end.

Context {TypeObj : Type}.
Variable getTypeAtLocation : Resolve.Node -> option TypeObj.
Variable typeToString :
  TypeObj -> Resolve.Node -> list TypeFormatFlag -> string.
Variable getSourceFile : string -> option Resolve.Node.

(** [getVariableType]: a throw inside the [try] gives [null]. *)
Definition getVariableType (fs : FS) (run1 run2 : EngineRun)
  (document : Document) (position : Position) (st : state)
  : option string * state :=
  match initializeTypeScriptService fs run1 document st with
  | (Throws, st1) => (None, st1)
  | (Returns _, st1) =>
      match languageService st1, typeChecker st1 with
      | Some _, Some _ =>
          match engineReads fs (reads run2) (fileCache st1) with
          | (Throws, cache) => (None, setCache cache st1)
          | (Returns _, cache) =>
              let st2 := setCache cache st1 in
              if hasProgram run2 then
                match getSourceFile (fsPath document) with
                | None => (None, st2)
                | Some sourceFile =>
                    match Resolve.findNodeAtPosition sourceFile
                            (offsetAt document position) with
                    | None => (None, st2)
                    | Some node =>
                        match getTypeAtLocation node with
                        | None => (None, st2)
                        | Some type => (Some (typeToString type node flags), st2)
                        end
                    end
                end
              else (None, st2)
          end
      | _, _ => (None, st1)
      end
  end.

(** One invocation of the command, as far as the session is concerned. *)
Record Query := {
  queryFS : FS;
  queryRun1 : EngineRun;
  queryRun2 : EngineRun;
  queryDocument : Document;
  queryPosition : Position
}.

Definition afterQuery (st : state) (q : Query) : state :=
  snd (getVariableType (queryFS q) (queryRun1 q) (queryRun2 q)
         (queryDocument q) (queryPosition q) st).

Definition afterQueries (qs : list Query) (st : state) : state :=
  fold_left afterQuery qs st.

End Variant.

Definition deactivate (st : state) : state := activated.

End Simple.

(** ** The hover variant *)

Module Hover.

(** The last hover: its rendered type and its position. *)
Record state := {
  currentTypeInfo : option string;
  currentPosition : option Position
}.

Definition activated : state :=
  {| currentTypeInfo := None; currentPosition := None |}.

Section Variant.

(** [getTypeAtPosition]: it asks the host's hover and definition providers
    and never throws. *)
Variable getTypeAtPosition : Document -> Position -> option string.
(** Whether [clipboard.writeText] succeeds. *)
Variable clipboardAccepts : string -> bool.

Definition provideHover (document : Document) (position : Position)
  (st : state) : option string * state :=
  match getTypeAtPosition document position with
  | Some typeInfo =>
      if truthy typeInfo
      then (Some typeInfo,
            {| currentTypeInfo := Some typeInfo;
               currentPosition := Some position |})
      else (None, st)
  | None => (None, st)
  end.

(** The condition under which the cached string is used. *)
Definition cachedFor (position : Position) (st : state) : option string :=
  match currentTypeInfo st, currentPosition st with
  | Some typeInfo, Some cp =>
      if truthy typeInfo
         && (line cp =? line position)%N
         && (Z.abs (Z.of_N (character cp) - Z.of_N (character position)) <? 10)%Z
      then Some typeInfo
      else None
  | _, _ => None
  end.

Definition copyTo (typeInfo : string) : list effect * completion unit :=
  if clipboardAccepts typeInfo
  then ([ClipboardWrite typeInfo;
         ShowInformationMessage ("Type copied to clipboard: " +:+ typeInfo)],
        Returns tt)
  else ([], Throws).

Definition copyTypeCommand (editor : option Editor) (st : state)
  : list effect * completion unit :=
  match editor with
  | None => ([ShowErrorMessage "No active editor found"], Returns tt)
  | Some ed =>
      let position := selectionActive ed in
      match cachedFor position st with
      | Some typeInfo => copyTo typeInfo
      | None =>
          match getTypeAtPosition (document ed) position with
          | Some typeInfo =>
              if truthy typeInfo
              then let (effects, c) := copyTo typeInfo in
                   (Resolved position :: effects, c)
              else ([Resolved position;
                     ShowWarningMessage
                       "No type information found at cursor position"],
                    Returns tt)
          | None =>
              ([Resolved position;
                ShowWarningMessage "No type information found at cursor position"],
               Returns tt)
          end
      end
  end.

End Variant.

Definition deactivate (st : state) : state := activated.

End Hover.

(** ** The command handlers *)

Module Command.

Section Handlers.

(** The resolver of the variant and the clipboard of the host; both are
    allowed to fail. *)
Variable getVariableType :
  Document -> Position -> string -> completion (option string).
Variable clipboardAccepts : string -> bool.

(** The selected text, or else the word at the cursor, with the position
    the query is made at. *)
Definition target (ed : Editor) : string * Position :=
  let selectedText := selectionText ed in
  let position := selectionActive ed in
  if negb (truthy selectedText) then
    match wordRangeAt ed position with
    | Some (start, word) => (word, start)
    | None => (selectedText, position)
    end
  else (selectedText, position).

(** [copy-type.copyTypeAtCursor] of the rich variant. *)
Definition copyTypeAtCursor (editor : option Editor)
  : list effect * completion unit :=
  match editor with
  | None => ([ShowErrorMessage "No active editor"], Returns tt)
  | Some ed =>
      let (selectedText, position) := target ed in
      if negb (truthy selectedText)
      then ([ShowWarningMessage
               "Please select a variable or place cursor on a variable"],
            Returns tt)
      else
        let shown :=
          [Progress "Getting type information..."; Progress "Analyzing code..."] in
        match getVariableType (document ed) position selectedText with
        | Throws =>
            (shown ++ [ShowErrorMessage "Failed to get type information"],
             Returns tt)
        | Returns typeInfo =>
            let shown := shown ++ [Progress "Complete"] in
            match typeInfo with
            | Some t =>
                if truthy t then
                  if clipboardAccepts t
                  then (shown ++ [ClipboardWrite t;
                                  ShowInformationMessage ("Type copied: " +:+ t)],
                        Returns tt)
                  else (shown ++ [ShowErrorMessage "Failed to get type information"],
                        Returns tt)
                else
                  (shown ++ [ShowWarningMessage
                               ("Unable to get type information for variable "
                                +:+ dquote +:+ selectedText +:+ dquote)],
                   Returns tt)
            | None =>
                (shown ++ [ShowWarningMessage
                             ("Unable to get type information for variable "
                              +:+ dquote +:+ selectedText +:+ dquote)],
                 Returns tt)
            end
        end
  end.

(** [copy-type.copyVariableType] of the simple variant. *)
Definition copyVariableType (editor : option Editor)
  : list effect * completion unit :=
  match editor with
  | None => ([ShowErrorMessage "没有活动的编辑器"], Returns tt)
  | Some ed =>
      let (selectedText, position) := target ed in
      if negb (truthy selectedText)
      then ([ShowWarningMessage "请选择一个变量或将光标放在变量上"], Returns tt)
      else
        match getVariableType (document ed) position selectedText with
        | Throws => ([ShowErrorMessage "获取类型信息失败"], Returns tt)
        | Returns typeInfo =>
            match typeInfo with
            | Some t =>
                if truthy t then
                  if clipboardAccepts t
                  then ([ClipboardWrite t;
                         ShowInformationMessage ("类型已复制: " +:+ t)],
                        Returns tt)
                  else ([ShowErrorMessage "获取类型信息失败"], Returns tt)
                else
                  ([ShowWarningMessage
                      ("无法获取变量 " +:+ dquote +:+ selectedText +:+ dquote
                       +:+ " 的类型信息")],
                   Returns tt)
            | None =>
                ([ShowWarningMessage
                    ("无法获取变量 " +:+ dquote +:+ selectedText +:+ dquote
                     +:+ " 的类型信息")],
                 Returns tt)
            end
        end
  end.

(** The shortcut of the simple variant runs [copy-type.copyVariableType]
    and does not wait for it. *)
Definition copyTypeShortcut (editor : option Editor)
  : list effect * completion unit :=
  (fst (copyVariableType editor), Returns tt).

End Handlers.

(** The effects that count as the outcome of a command. *)
Definition isOutcome (e : effect) : bool :=
  match e with
  | ClipboardWrite _ | ShowInformationMessage _
  | ShowWarningMessage _ | ShowErrorMessage _ => true
  | Progress _ | Resolved _ => false
  end.

Definition outcome (effects : list effect) : list effect :=
  List.filter isOutcome effects.

End Command.

(** ** Locating the manifest ([findTsConfig]) *)

Module Config.

Section Find.

(** Node's [path.dirname] and [path.join], and [fs.existsSync]. *)
Variable dirname : string -> string.
Variable join : string -> string -> string.
Variable existsSync : string -> bool.

(** The [while] loop of [findTsConfig], with a bound on the number of
    iterations: [None] when the bound is reached, [Some r] when the function
    returns [r] ([Some None] for [null]). *)
Fixpoint findTsConfigFrom (fuel : nat) (currentPath : string)
  : option (option string) :=
  match fuel with
  | 0 => None
  | S fuel' =>
      if String.eqb currentPath (dirname currentPath) then Some None
      else
        let tsconfigPath := join currentPath "tsconfig.json" in
        if existsSync tsconfigPath then Some (Some tsconfigPath)
        else findTsConfigFrom fuel' (dirname currentPath)
  end.

Definition findTsConfig (fuel : nat) (rootPath : string)
  : option (option string) :=
  findTsConfigFrom fuel rootPath.

(** The [k]-th ancestor of a path. *)
Fixpoint ancestor (k : nat) (path : string) : string :=
  match k with
  | 0 => path
  | S k' => ancestor k' (dirname path)
  end.

End Find.

End Config.

(** ** What the engine is handed in the simple variant *)

Module SimpleTrace.

Import Session(FS).


End SimpleTrace.

(** * Properties *)

(** ** JavaScript helpers *)

Lemma includes_true xs s : includes xs s = true <-> In s xs.
Proof.
  unfold includes. rewrite existsb_exists. split.
  - intros (x & Hx & He). apply String.eqb_eq in He. now subst.
  - intros Hs. exists s. split; [assumption | apply String.eqb_refl].
Qed.

Lemma truthy_true s : truthy s = true <-> s <> "".
Proof.
  unfold truthy. rewrite negb_true_iff. split.
  - intros H ->. discriminate.
  - intros H. apply String.eqb_neq. exact H.
Qed.

Lemma truthy_false s : truthy s = false <-> s = "".
Proof.
  unfold truthy. rewrite negb_false_iff. apply String.eqb_eq.
Qed.

(** A model of Node's [path.join] and [path.extname] on entry names, used to
    run the walk on concrete trees. *)
Definition joinModel (dir name : string) : string := dir +:+ "/" +:+ name.

Fixpoint fromLastDot (s : string) : option string :=
  match s with
  | EmptyString => None
  | String c s' =>
      match fromLastDot s' with
      | Some r => Some r
      | None => if Ascii.eqb c "."%char then Some s else None
      end
  end.

Definition extnameModel (name : string) : string :=
  match name with
  | EmptyString => ""
  | String _ rest =>
      match fromLastDot rest with
      | Some r => r
      | None => ""
      end
  end.

(** ** Source-file enumeration *)

Module EnumerateFacts.

Import Enumerate.

(** Induction on a directory tree. *)
Section ListingInduction.

Variable P : Listing -> Prop.
Hypothesis P_unreadable : P Unreadable.
Hypothesis P_entries :
  forall es,
    Forall (fun e => match e with DirEnt _ sub => P sub | _ => True end) es ->
    P (Entries es).

Fixpoint Listing_induction (l : Listing) : P l :=
  match l with
  | Unreadable => P_unreadable
  | Entries es =>
      P_entries es
        ((fix go (es : list Dirent)
            : Forall (fun e => match e with DirEnt _ sub => P sub | _ => True end) es :=
            match es with
            | [] => @List.Forall_nil _ _
            | e :: es' =>
                @List.Forall_cons _ _ e es'
                  (match e as e0
                         return match e0 with DirEnt _ sub => P sub | _ => True end
                   with
                   | DirEnt _ sub => Listing_induction sub
                   | _ => I
                   end)
                  (go es')
            end) es)
  end.

End ListingInduction.


Section Walk.

Variable join : string -> string -> string.
Variable extname : string -> string.

Abbreviation searchFiles := (searchFiles join extname).
Abbreviation loopEntries := (loopEntries join extname).

Lemma searchFiles_entries dir es depth w :
  searchFiles dir (Entries es) depth w =
  if (maxDepth <? depth) || full w then w
  else loopEntries dir depth es (log (Readdir dir depth) w).
Proof.
  cbn [Enumerate.searchFiles].
  destruct ((maxDepth <? depth) || full w); [reflexivity |].
  generalize (log (Readdir dir depth) w).
  induction es as [| e es IH]; intros w0; [reflexivity |].
  cbn [Enumerate.loopEntries].
  destruct (full w0); [reflexivity |].
  destruct e as [name | name sub | name]; [| | apply IH].
  - destruct (includes sourceExts (extname name)); apply IH.
  - destruct (negb (includes skipDirs name) && negb (startsWithDot name));
      apply IH.
Qed.

Lemma searchFiles_unreadable dir depth w :
  searchFiles dir Unreadable depth w =
  if (maxDepth <? depth) || full w then w else log (Readdir dir depth) w.
Proof. reflexivity. Qed.





(** The walk stops one file after the maximum. *)
Lemma searchFiles_length l :
  forall dir depth w,
    length (files (searchFiles dir l depth w))
    <= Nat.max (length (files w)) (S maxFiles).
Proof.
  induction l as [| es IH] using Listing_induction; intros dir depth w.
  - rewrite searchFiles_unreadable.
    destruct ((maxDepth <? depth) || full w); cbn [log files]; lia.
  - rewrite searchFiles_entries.
    destruct ((maxDepth <? depth) || full w); [lia |].
    change (length (files w)) with (length (files (log (Readdir dir depth) w))).
    generalize (log (Readdir dir depth) w). clear w.
    induction IH as [| e es He _ IHes]; intros w; [cbn; lia |].
    cbn [Enumerate.loopEntries]. unfold full.
    destruct (maxFiles <? length (files w)) eqn:Hf; [lia |].
    apply Nat.ltb_ge in Hf.
    destruct e as [name | name sub | name].
    + destruct (includes sourceExts (extname name)); [| apply IHes].
      etransitivity; [apply IHes |].
      cbn [push files]. rewrite length_app. cbn [length]. lia.
    + destruct (negb (includes skipDirs name) && negb (startsWithDot name));
        [| apply IHes].
      etransitivity; [apply IHes |].
      specialize (He (join dir name) (S depth) (log (Descend name (S depth)) w)).
      cbn [log files] in He. lia.
    + apply IHes.
Qed.

Lemma getAllTsFiles_length rootPath root :
  length (getAllTsFiles join extname rootPath root) <= S maxFiles.
Proof.
  unfold getAllTsFiles, getAllTsFiles_walk.
  etransitivity; [apply searchFiles_length |]. cbn [files length]. lia.
Qed.



End Walk.

(** A project with [n] source files directly under the root. *)
Definition sourceName (i : nat) : string :=
  "f" +:+ NilZero.string_of_uint (Nat.to_uint i) +:+ ".ts".

Definition flatProject (n : nat) : Listing :=
  Entries (map (fun i => FileEnt (sourceName i)) (seq 0 n)).

(** A small project: a source file, a README, a symbolic link, a
    dependency directory, a hidden directory, an unreadable directory and a
    source directory. *)
Definition smallProject : Listing :=
  Entries
    [ FileEnt "index.ts"; FileEnt "README.md"; OtherEnt "link.ts";
      DirEnt "node_modules" (Entries [FileEnt "dep.js"]);
      DirEnt ".github" (Entries [FileEnt "ci.js"]);
      DirEnt "locked" Unreadable;
      DirEnt "src" (Entries [FileEnt "a.tsx"; FileEnt ".ts"; FileEnt "b.vue"]) ].

Example getAllTsFiles_smallProject :
  getAllTsFiles joinModel extnameModel "/p" smallProject
  = ["/p/index.ts"; "/p/src/a.tsx"].
Proof. reflexivity. Qed.

Example trace_smallProject :
  trace (getAllTsFiles_walk joinModel extnameModel "/p" smallProject)
  = [ Readdir "/p" 0; Descend "locked" 1; Readdir "/p/locked" 1;
      Descend "src" 1; Readdir "/p/src" 1 ].
Proof. reflexivity. Qed.

(** [n] directories [d] inside one another, with [deep.ts] in the last. *)
Fixpoint nested (n : nat) : Listing :=
  match n with
  | 0 => Entries [FileEnt "deep.ts"]
  | S n' => Entries [DirEnt "d" (nested n')]
  end.

Example getAllTsFiles_depth_10 :
  getAllTsFiles joinModel extnameModel "" (nested 10)
  = ["/d/d/d/d/d/d/d/d/d/d/deep.ts"].
Proof. reflexivity. Qed.

Example getAllTsFiles_depth_11 :
  getAllTsFiles joinModel extnameModel "" (nested 11) = [].
Proof. reflexivity. Qed.

Example getAllTsFiles_of_1000_files :
  length (getAllTsFiles joinModel extnameModel "/project" (flatProject 1000))
  = 1000.
Proof. vm_compute. reflexivity. Qed.

(** C2: on a root holding 2000 source files the enumeration returns 1001
    paths, one more than the maximum file count: the loop tests
    [files.length > maxFiles] before it pushes. *)
Theorem getAllTsFiles_of_2000_files :
  length (getAllTsFiles joinModel extnameModel "/project" (flatProject 2000))
  = 1001.
Proof. vm_compute. reflexivity. Qed.

End EnumerateFacts.

(** ** Node resolution *)

Module ResolveFacts.

Import Resolve.

(** Induction on a syntax tree. *)
Section NodeInduction.

Variable P : Node -> Prop.
Hypothesis P_node : forall k s e cs, Forall P cs -> P (mkNode k s e cs).

Fixpoint Node_induction (n : Node) : P n :=
  match n with
  | mkNode k s e cs =>
      P_node k s e cs
        ((fix go (cs : list Node) : Forall P cs :=
            match cs with
            | [] => @List.Forall_nil _ _
            | c :: cs' => @List.Forall_cons _ _ c cs' (Node_induction c) (go cs')
            end) cs)
  end.

End NodeInduction.

Lemma covers_spec position n :
  covers position n = true <-> (getStart n <= position < getEnd n)%N.
Proof.
  unfold covers. rewrite andb_true_iff, N.leb_le, N.ltb_lt. tauto.
Qed.

Lemma visit_unfold position node b :
  visit position node b =
  if covers position node
  then fold_left (fun b' c => visit position c b') (children node) (consider b node)
  else b.
Proof. destruct node; reflexivity. Qed.

Lemma find_unfold position node :
  find position node =
  if covers position node
  then match forEachChild (find position) (children node) with
       | Some r => Some r
       | None => Some node
       end
  else None.
Proof. destruct node; reflexivity. Qed.

Lemma candidates_unfold position node :
  candidates position node =
  if covers position node
  then node :: flat_map (candidates position) (children node)
  else [].
Proof. destruct node; reflexivity. Qed.

Lemma nodes_unfold node :
  nodes node = node :: flat_map nodes (children node).
Proof. destruct node; reflexivity. Qed.

Lemma wellFormed_unfold node :
  wellFormed node <->
  ordered (children node)
  /\ Forall (fun c => (getStart node <= getStart c)%N
                      /\ (getEnd c <= getEnd node)%N
                      /\ wellFormed c) (children node).
Proof.
  destruct node as [k s e cs]. cbn [wellFormed children getStart getEnd].
  apply and_iff_compat_l.
  induction cs as [| c cs IH]; [split; [constructor | trivial] |].
  rewrite IH. split.
  - intros [Hc Hcs]. constructor; assumption.
  - intros H. inversion H; subst. split; assumption.
Qed.

(** *** The rich resolver folds [consider] over the candidates *)

Lemma visit_candidates position node :
  forall b,
    visit position node b = fold_left consider (candidates position node) b.
Proof.
  induction node as [k s e cs IH] using Node_induction; intros b.
  rewrite visit_unfold, candidates_unfold.
  destruct (covers position (mkNode k s e cs)); [| reflexivity].
  cbn [fold_left children]. generalize (consider b (mkNode k s e cs)).
  induction IH as [| c cs Hc _ IHcs]; intros b0; [reflexivity |].
  cbn [fold_left flat_map]. rewrite fold_left_app, <- Hc. apply IHcs.
Qed.

Lemma candidates_cover position node :
  Forall (fun m => covers position m = true) (candidates position node).
Proof.
  induction node as [k s e cs IH] using Node_induction.
  rewrite candidates_unfold.
  destruct (covers position (mkNode k s e cs)) eqn:Hc; constructor; [exact Hc |].
  clear Hc. cbn [children]. induction IH as [| c cs Hc' _ IHcs]; [constructor |].
  cbn [flat_map]. apply Forall_app. split; assumption.
Qed.

Lemma candidates_nodes position node :
  forall m, In m (candidates position node) -> In m (nodes node).
Proof.
  induction node as [k s e cs IH] using Node_induction; intros m.
  rewrite candidates_unfold, nodes_unfold.
  destruct (covers position (mkNode k s e cs)); [| intros []].
  cbn [children]. intros [-> | Hm]; [now left | right].
  apply in_flat_map in Hm as (c & Hc & Hm). apply in_flat_map.
  exists c. split; [exact Hc |].
  rewrite List.Forall_forall in IH. now apply IH.
Qed.

(** What the three variables of [visit] hold after the nodes [seen]. *)
Definition tracks (b : best) (seen : list Node) : Prop :=
  match result b with
  | None => b = initial /\ seen = []
  | Some n =>
      In n seen
      /\ bestStart b = Z.of_N (getStart n)
      /\ bestEnd b = Fin (getEnd n)
      /\ Forall (fun m => ~ tighter m n) seen
  end.

Lemma tighter_irrefl n : ~ tighter n n.
Proof. unfold tighter. lia. Qed.

Lemma tighter_trans a b c : tighter a b -> tighter b c -> tighter a c.
Proof. unfold tighter. lia. Qed.

Lemma morePrecise_tracked m n b :
  bestStart b = Z.of_N (getStart n) ->
  bestEnd b = Fin (getEnd n) ->
  morePrecise m b = true <-> tighter m n.
Proof.
  intros Hs He. unfold morePrecise, tighter. rewrite Hs, He. cbn [ltBound].
  rewrite orb_true_iff, andb_true_iff, Z.ltb_lt, Z.eqb_eq, N.ltb_lt. lia.
Qed.

Lemma consider_tracks b seen m :
  tracks b seen -> tracks (consider b m) (seen ++ [m]).
Proof.
  unfold tracks, consider. destruct (result b) as [n |] eqn:Hr.
  - intros (Hin & Hs & He & Hall).
    destruct (morePrecise m b) eqn:Hm.
    + cbn [result bestStart bestEnd]. apply (morePrecise_tracked m n) in Hm; [| assumption ..].
      split; [apply in_or_app; right; now left |].
      split; [reflexivity |]. split; [reflexivity |].
      apply Forall_app. split.
      * eapply List.Forall_impl; [| exact Hall]. cbn. intros x Hx Hxm.
        apply Hx. eapply tighter_trans; eassumption.
      * constructor; [apply tighter_irrefl | constructor].
    + rewrite Hr. split; [apply in_or_app; now left |].
      split; [assumption |]. split; [assumption |].
      apply Forall_app. split; [assumption |].
      constructor; [| constructor].
      intros Ht. pose proof (proj2 (morePrecise_tracked m n b Hs He) Ht).
      congruence.
  - intros [-> ->]. cbn.
    assert (Hm : morePrecise m initial = true).
    { unfold morePrecise, initial. cbn [bestStart].
      apply orb_true_iff. left. apply Z.ltb_lt. lia. }
    rewrite Hm. cbn [result bestStart bestEnd].
    split; [now left |]. split; [reflexivity |]. split; [reflexivity |].
    constructor; [apply tighter_irrefl | constructor].
Qed.

Lemma fold_consider_tracks l :
  forall b seen, tracks b seen -> tracks (fold_left consider l b) (seen ++ l).
Proof.
  induction l as [| m l IH]; intros b seen Hb.
  - now rewrite app_nil_r.
  - cbn [fold_left].
    replace (seen ++ m :: l) with ((seen ++ [m]) ++ l)
      by (now rewrite <- app_assoc).
    apply IH. now apply consider_tracks.
Qed.

Lemma visit_tracks position root :
  tracks (visit position root initial) (candidates position root).
Proof.
  rewrite visit_candidates.
  apply (fold_consider_tracks (candidates position root) initial []).
  split; reflexivity.
Qed.

(** *** Well-formed trees *)

Lemma nodes_within node :
  wellFormed node ->
  forall m, In m (nodes node) ->
    (getStart node <= getStart m)%N /\ (getEnd m <= getEnd node)%N.
Proof.
  induction node as [k s e cs IH] using Node_induction.
  intros Hwf m. apply wellFormed_unfold in Hwf as [_ Hcs].
  rewrite nodes_unfold. cbn [children getStart getEnd] in *.
  intros [<- | Hm]; [cbn; lia |].
  apply in_flat_map in Hm as (c & Hc & Hm).
  rewrite List.Forall_forall in IH, Hcs.
  destruct (Hcs c Hc) as (Hs & He & Hwc).
  destruct (IH c Hc Hwc m Hm). lia.
Qed.

Lemma outside_subtree position node m :
  wellFormed node -> covers position node = false -> In m (nodes node) ->
  covers position m = false.
Proof.
  intros Hwf Hn Hm. destruct (nodes_within node Hwf m Hm) as [Hs He].
  destruct (covers position m) eqn:Hc; [| reflexivity].
  apply covers_spec in Hc.
  assert (covers position node = true) by (apply covers_spec; lia).
  congruence.
Qed.

Lemma filter_none {A} (f : A -> bool) l :
  (forall x, In x l -> f x = false) -> List.filter f l = [].
Proof.
  induction l as [| x l IH]; intros H; [reflexivity |].
  cbn [List.filter]. rewrite (H x) by now left.
  apply IH. intros y Hy. apply H. now right.
Qed.

(** In a well-formed tree [visit] reaches every node that covers the
    offset. *)
Lemma candidates_all position node :
  wellFormed node ->
  candidates position node = List.filter (covers position) (nodes node).
Proof.
  induction node as [k s e cs IH] using Node_induction. intros Hwf.
  rewrite candidates_unfold, nodes_unfold. cbn [List.filter children].
  destruct (covers position (mkNode k s e cs)) eqn:Hc.
  - f_equal. apply wellFormed_unfold in Hwf as [_ Hcs]. cbn [children] in Hcs.
    clear Hc. induction IH as [| c cs Hc _ IHcs]; [reflexivity |].
    inversion Hcs as [| ? ? (_ & _ & Hwc) Hcs']; subst.
    cbn [flat_map]. rewrite List.filter_app, Hc by assumption.
    f_equal. now apply IHcs.
  - symmetry. apply filter_none. intros m Hm.
    eapply outside_subtree; [exact Hwf | exact Hc |].
    rewrite nodes_unfold. now right.
Qed.

(** Among ordered siblings at most one covers an offset. *)
Lemma ordered_disjoint position cs :
  ordered cs ->
  forall c c', In c cs -> In c' cs ->
    covers position c = true -> covers position c' = true -> c = c'.
Proof.
  induction cs as [| x cs IH]; intros Ho c c' Hc Hc' Hp Hp'; [destruct Hc |].
  destruct Ho as [Hx Ho]. rewrite List.Forall_forall in Hx.
  apply covers_spec in Hp as Hr, Hp' as Hr'.
  destruct Hc as [-> | Hc], Hc' as [-> | Hc'].
  - reflexivity.
  - specialize (Hx c' Hc'). lia.
  - specialize (Hx c Hc). lia.
  - now apply IH.
Qed.

Lemma find_none position node :
  covers position node = false -> find position node = None.
Proof. intros H. rewrite find_unfold. now rewrite H. Qed.

Section LeafAtOffset.

Variable position : N.
Variable leaf : Node.
Hypothesis leaf_is_leaf : isLeaf leaf.
Hypothesis leaf_covers : covers position leaf = true.

Lemma covers_ancestor node :
  wellFormed node -> In leaf (nodes node) -> covers position node = true.
Proof.
  intros Hwf Hin. destruct (nodes_within node Hwf leaf Hin).
  apply covers_spec in leaf_covers. apply covers_spec. lia.
Qed.

(** The greedy resolver reaches the leaf. *)
Lemma find_leaf node :
  wellFormed node -> In leaf (nodes node) -> find position node = Some leaf.
Proof.
  induction node as [k s e cs IH] using Node_induction. intros Hwf Hin.
  rewrite find_unfold, (covers_ancestor _ Hwf Hin).
  apply wellFormed_unfold in Hwf as [Ho Hcs]. cbn [children] in *.
  rewrite nodes_unfold in Hin. cbn [children] in Hin.
  destruct Hin as [<- | Hin].
  { unfold isLeaf in leaf_is_leaf. cbn [children] in leaf_is_leaf.
    subst cs. reflexivity. }
  enough (forEachChild (find position) cs = Some leaf) as -> by reflexivity.
  induction IH as [| c cs Hc _ IHcs]; [destruct Hin |].
  inversion Hcs as [| ? ? (_ & _ & Hwc) Hcs']; subst.
  destruct Ho as [Hx Ho]. cbn [flat_map] in Hin. cbn [forEachChild].
  apply in_app_or in Hin as [Hin | Hin].
  - now rewrite (Hc Hwc Hin).
  - apply in_flat_map in Hin as Hin'. destruct Hin' as (c' & Hc' & Hl).
    rewrite List.Forall_forall in Hx, Hcs'.
    destruct (Hcs' c' Hc') as (_ & _ & Hwc').
    assert (Hp' : covers position c' = true) by now apply covers_ancestor.
    assert (Hp : covers position c = false).
    { destruct (covers position c) eqn:Hp; [| reflexivity].
      apply covers_spec in Hp, Hp'. specialize (Hx c' Hc'). lia. }
    rewrite (find_none _ _ Hp). apply IHcs; try assumption.
    now apply List.Forall_forall.
Qed.

(** Every node the rich resolver reaches is the leaf or an ancestor of it. *)
Lemma candidates_above_leaf node :
  wellFormed node -> In leaf (nodes node) ->
  forall m, In m (candidates position node) -> In leaf (nodes m).
Proof.
  induction node as [k s e cs IH] using Node_induction. intros Hwf Hin m.
  rewrite candidates_unfold, (covers_ancestor _ Hwf Hin). cbn [children].
  intros [<- | Hm]; [exact Hin |].
  apply wellFormed_unfold in Hwf as [Ho Hcs]. cbn [children] in *.
  rewrite nodes_unfold in Hin. cbn [children] in Hin.
  destruct Hin as [<- | Hin].
  { unfold isLeaf in leaf_is_leaf. cbn [children] in leaf_is_leaf.
    subst cs. destruct Hm. }
  apply in_flat_map in Hm as (c & Hc & Hm).
  apply in_flat_map in Hin as (c' & Hc' & Hl).
  rewrite List.Forall_forall in IH, Hcs.
  destruct (Hcs c' Hc') as (_ & _ & Hwc').
  assert (Hp' : covers position c' = true) by now apply covers_ancestor.
  assert (Hp : covers position c = true).
  { destruct (covers position c) eqn:Hp; [reflexivity |].
    rewrite candidates_unfold, Hp in Hm. destruct Hm. }
  assert (c = c') as -> by (eapply ordered_disjoint; eassumption).
  now apply (IH c' Hc' Hwc' Hl).
Qed.

Lemma leaf_is_candidate node :
  wellFormed node -> In leaf (nodes node) ->
  In leaf (candidates position node).
Proof.
  intros Hwf Hin. rewrite candidates_all by assumption.
  apply List.filter_In. split; assumption.
Qed.

End LeafAtOffset.

(** *** The two resolvers *)

Lemma rich_result sourceFile position :
  match findMostSpecificNodeAtPosition sourceFile position with
  | Some n =>
      In n (candidates position sourceFile)
      /\ covers position n = true
      /\ Forall (fun m => ~ tighter m n) (candidates position sourceFile)
  | None =>
      covers position sourceFile = false
      /\ candidates position sourceFile = []
  end.
Proof.
  unfold findMostSpecificNodeAtPosition.
  pose proof (visit_tracks position sourceFile) as Ht. unfold tracks in Ht.
  destruct (result (visit position sourceFile initial)) as [n |].
  - destruct Ht as (Hin & _ & _ & Hall). split; [exact Hin |].
    split; [| exact Hall].
    pose proof (candidates_cover position sourceFile) as Hc.
    rewrite List.Forall_forall in Hc. now apply Hc.
  - destruct Ht as [_ Hnil]. split; [| exact Hnil].
    rewrite candidates_unfold in Hnil.
    destruct (covers position sourceFile); [discriminate | reflexivity].
Qed.

(** C5: the rich resolver returns a node that covers the offset and that
    was reached by descending only through nodes covering the offset, and
    no reached node is tighter (greater start, or the same start and a smaller
    end); it returns nothing exactly when the root does not cover the offset,
    in which case no node is reached.  In a well-formed tree the reached
    nodes are all the nodes that cover the offset. *)
Theorem findMostSpecificNodeAtPosition_tightest sourceFile position :
  match findMostSpecificNodeAtPosition sourceFile position with
  | Some n =>
      In n (candidates position sourceFile)
      /\ covers position n = true
      /\ Forall (fun m => ~ tighter m n) (candidates position sourceFile)
  | None =>
      covers position sourceFile = false
      /\ candidates position sourceFile = []
  end
  /\ (wellFormed sourceFile ->
      candidates position sourceFile
      = List.filter (covers position) (nodes sourceFile)).
Proof.
  split; [apply rich_result | apply candidates_all].
Qed.

(** Where the two resolvers meet: in a well-formed tree, for an offset
    covered by a leaf, the greedy resolver returns that leaf, which is the only
    leaf covering the offset; the rich resolver returns the leaf or an ancestor
    of it whose range equals the range of the leaf, hence the leaf itself when
    no other node above it has that range. *)
Theorem resolvers_at_leaf root leaf position :
  wellFormed root -> In leaf (nodes root) -> isLeaf leaf ->
  covers position leaf = true ->
  findNodeAtPosition root position = Some leaf
  /\ (forall l, In l (nodes root) -> isLeaf l -> covers position l = true ->
      l = leaf)
  /\ (exists n,
        findMostSpecificNodeAtPosition root position = Some n
        /\ In n (nodes root) /\ In leaf (nodes n)
        /\ getStart n = getStart leaf /\ getEnd n = getEnd leaf)
  /\ ((forall a, In a (nodes root) -> In leaf (nodes a) ->
         getStart a = getStart leaf -> getEnd a = getEnd leaf -> a = leaf) ->
      findMostSpecificNodeAtPosition root position = Some leaf).
Proof.
  intros Hwf Hin Hleaf Hcov.
  assert (Hfind : findNodeAtPosition root position = Some leaf)
    by now apply find_leaf.
  assert (Hrich : exists n,
             findMostSpecificNodeAtPosition root position = Some n
             /\ In n (nodes root) /\ In leaf (nodes n)
             /\ getStart n = getStart leaf /\ getEnd n = getEnd leaf).
  { pose proof (rich_result root position) as Hres.
    pose proof (leaf_is_candidate position leaf Hcov root Hwf Hin) as Hcand.
    destruct (findMostSpecificNodeAtPosition root position) as [n |];
      [| destruct Hres as [_ Hnil]; rewrite Hnil in Hcand; destruct Hcand].
    destruct Hres as (Hn & _ & Hall). exists n. split; [reflexivity |].
    assert (Hnr : In n (nodes root)) by (eapply candidates_nodes; eassumption).
    assert (Hln : In leaf (nodes n))
      by (eapply candidates_above_leaf; eassumption).
    split; [exact Hnr |]. split; [exact Hln |].
    rewrite List.Forall_forall in Hall. specialize (Hall leaf Hcand).
    assert (Hwn : wellFormed n).
    { clear - Hwf Hnr. revert Hwf Hnr.
      induction root as [k s e cs IH] using Node_induction. intros Hwf Hnr.
      rewrite nodes_unfold in Hnr. destruct Hnr as [<- | Hnr]; [exact Hwf |].
      apply wellFormed_unfold in Hwf as [_ Hcs]. cbn [children] in *.
      apply in_flat_map in Hnr as (c & Hc & Hnr).
      rewrite List.Forall_forall in IH, Hcs.
      destruct (Hcs c Hc) as (_ & _ & Hwc). now apply (IH c Hc). }
    destruct (nodes_within n Hwn leaf Hln). unfold tighter in Hall. lia. }
  split; [exact Hfind |]. split; [| split; [exact Hrich |]].
  - intros l Hl Hll Hlc.
    pose proof (find_leaf position l Hll Hlc root Hwf Hl) as Hfind'.
    unfold findNodeAtPosition in Hfind. congruence.
  - intros Huniq. destruct Hrich as (n & Hn & Hnr & Hln & Hs & He).
    rewrite Hn. f_equal. now apply Huniq.
Qed.

(** The file [foo]: a source file, an expression statement and an
    identifier with the same range, and the end-of-file token. *)
Definition fooIdentifier : Node := mkNode 80 0 3 [].
Definition fooStatement : Node := mkNode 244 0 3 [fooIdentifier].
Definition fooFile : Node := mkNode 312 0 3 [fooStatement; mkNode 1 3 3 []].

(** The file [f(x)]: the call covers the identifiers and the parentheses. *)
Definition callee : Node := mkNode 80 0 1 [].
Definition argument : Node := mkNode 80 2 3 [].
Definition callFile : Node :=
  mkNode 312 0 4
    [mkNode 244 0 4 [mkNode 213 0 4 [callee; argument]]; mkNode 1 4 4 []].

Example findMostSpecificNodeAtPosition_callee :
  findMostSpecificNodeAtPosition callFile 0 = Some callee.
Proof. reflexivity. Qed.

Example findNodeAtPosition_callee :
  findNodeAtPosition callFile 0 = Some callee.
Proof. reflexivity. Qed.

Example findMostSpecificNodeAtPosition_argument :
  findMostSpecificNodeAtPosition callFile 2 = Some argument.
Proof. reflexivity. Qed.

Example findMostSpecificNodeAtPosition_parenthesis :
  findMostSpecificNodeAtPosition callFile 1 = Some callFile
  /\ findNodeAtPosition callFile 1 = Some (mkNode 213 0 4 [callee; argument]).
Proof. split; reflexivity. Qed.

Example findMostSpecificNodeAtPosition_past_end :
  findMostSpecificNodeAtPosition callFile 4 = None
  /\ findNodeAtPosition callFile 4 = None.
Proof. split; reflexivity. Qed.

Ltac well_formed :=
  cbn; repeat (split || constructor); cbn; lia.

Lemma fooFile_wellFormed : wellFormed fooFile.
Proof. well_formed. Defined.

Lemma callFile_wellFormed : wellFormed callFile.
Proof. well_formed. Defined.

Lemma findMostSpecificNodeAtPosition_tightest_witness :
  wellFormed callFile
  /\ candidates 2 callFile = List.filter (covers 2) (nodes callFile).
Proof.
  split; [exact callFile_wellFormed |].
  exact (proj2 (findMostSpecificNodeAtPosition_tightest callFile 2)
           callFile_wellFormed).
Defined.

Lemma resolvers_at_leaf_witness :
  wellFormed callFile /\ In argument (nodes callFile) /\ isLeaf argument
  /\ covers 2 argument = true
  /\ findNodeAtPosition callFile 2 = Some argument
  /\ findMostSpecificNodeAtPosition callFile 2 = Some argument.
Proof.
  assert (Hin : In argument (nodes callFile)) by (cbn; tauto).
  pose proof (resolvers_at_leaf callFile argument 2 callFile_wellFormed Hin
                eq_refl eq_refl) as (Hf & _ & _ & Hr).
  split; [exact callFile_wellFormed |]. split; [exact Hin |].
  split; [reflexivity |]. split; [reflexivity |]. split; [exact Hf |].
  apply Hr. intros a Ha _ Hs He. cbn in Ha.
  destruct Ha as [<- | [<- | [<- | [<- | [<- | [<- | []]]]]]];
    try reflexivity; discriminate.
Defined.

(** C7: at offset 1 of [foo] the identifier is the only leaf covering the
    offset and the greedy resolver returns it, but the rich resolver returns
    the source file, whose range is the same: a node is replaced only by a
    node with a strictly smaller range, so the innermost of several nodes with
    one range is never returned. *)
Lemma rich_resolver_keeps_outer_node :
  wellFormed fooFile
  /\ In fooIdentifier (nodes fooFile) /\ isLeaf fooIdentifier
  /\ (getStart fooIdentifier < 1 < getEnd fooIdentifier)%N
  /\ (forall l, In l (nodes fooFile) -> isLeaf l -> covers 1 l = true ->
      l = fooIdentifier)
  /\ findNodeAtPosition fooFile 1 = Some fooIdentifier
  /\ findMostSpecificNodeAtPosition fooFile 1 = Some fooFile
  /\ findMostSpecificNodeAtPosition fooFile 1 <> Some fooIdentifier.
Proof.
  split; [exact fooFile_wellFormed |].
  split; [cbn; tauto |]. split; [reflexivity |].
  split; [cbn; lia |]. split; [| split; [reflexivity | split; [reflexivity |]]].
  - intros l Hl Hleaf Hc. cbn in Hl.
    destruct Hl as [<- | [<- | [<- | [<- | []]]]];
      try reflexivity; try discriminate.
  - cbv. discriminate.
Qed.

End ResolveFacts.

(** ** The analysis session of the rich variant *)

Module SessionFacts.

Import Session.

Lemma setFiles_cache c v st : fileCache (setFiles c v st) = c.
Proof. reflexivity. Qed.

Lemma setFiles_versions c v st : fileVersions (setFiles c v st) = v.
Proof. reflexivity. Qed.

(** A host callback leaves every non-empty cached text, and its version,
    as they are. *)
Lemma getScriptSnapshot_keeps fs g st f content :
  fileCache st !! f = Some content -> content <> "" ->
  fileCache (snd (getScriptSnapshot fs g st)) !! f = Some content
  /\ fileVersions (snd (getScriptSnapshot fs g st)) !! f = fileVersions st !! f.
Proof.
  intros Hf Hne. unfold getScriptSnapshot.
  destruct (negb (existsSync fs g)); [now split |].
  destruct (decide (g = f)) as [-> | Hgf].
  - rewrite Hf. apply truthy_true in Hne. rewrite Hne. now split.
  - destruct (fileCache st !! g) as [c |]; [destruct (truthy c); [now split |] |];
      (destruct (readFileSync fs g); [| now split]);
      cbn [snd]; rewrite setFiles_cache, setFiles_versions;
      rewrite !lookup_insert_ne by assumption; now split.
Qed.

Lemma getScriptSnapshot_cached fs g st f :
  is_Some (fileCache st !! f) ->
  is_Some (fileCache (snd (getScriptSnapshot fs g st)) !! f).
Proof.
  intros Hf. unfold getScriptSnapshot.
  destruct (negb (existsSync fs g)); [exact Hf |].
  destruct (fileCache st !! g) as [c |]; [destruct (truthy c); [exact Hf |] |];
    (destruct (readFileSync fs g); [| exact Hf]);
    cbn [snd]; rewrite setFiles_cache;
    (destruct (decide (g = f)) as [-> | Hgf];
     [rewrite lookup_insert_eq; eauto | now rewrite lookup_insert_ne]).
Qed.

Lemma engineReads_keeps fs names :
  forall st f content,
    fileCache st !! f = Some content -> content <> "" ->
    fileCache (engineReads fs names st) !! f = Some content
    /\ fileVersions (engineReads fs names st) !! f = fileVersions st !! f.
Proof.
  unfold engineReads.
  induction names as [| g names IH]; intros st f content Hf Hne; [now split |].
  cbn [fold_left].
  destruct (getScriptSnapshot_keeps fs g st f content Hf Hne) as [Hc Hv].
  destruct (IH _ f content Hc Hne) as [Hc' Hv']. split; congruence.
Qed.

Lemma engineReads_cached fs names :
  forall st f,
    is_Some (fileCache st !! f) ->
    is_Some (fileCache (engineReads fs names st) !! f).
Proof.
  unfold engineReads.
  induction names as [| g names IH]; intros st f Hf; [exact Hf |].
  cbn [fold_left]. apply IH. now apply getScriptSnapshot_cached.
Qed.

Lemma needsInit_other_root rootPath st :
  currentWorkspaceRoot st <> Some rootPath -> needsInit rootPath st = true.
Proof.
  intros Hne. unfold needsInit. rewrite bool_decide_eq_false_2 by assumption.
  apply orb_true_r.
Qed.

Section Paths.

Variable join : string -> string -> string.
Variable extname : string -> string.
Variable resolveOptions : FS -> string -> CompilerOptions.

(** The host built for a root. *)
Definition hostFor (fs : FS) (rootPath : string) : Host :=
  {| scriptFileNames :=
       Enumerate.getAllTsFiles join extname rootPath (readdir fs rootPath);
     currentDirectory := rootPath;
     compilationSettings := resolveOptions fs rootPath |}.

(** C1, as the code has it: when the requested root differs from the
    active one, the host, the language service, the program and the type
    checker are replaced by ones built for the new root and the new root
    becomes the active one; the file cache and the version table are not
    cleared: every cached path stays cached, and every non-empty cached text
    keeps its text and its version. *)
Theorem reinitialization_keeps_file_records fs run rootPath st :
  currentWorkspaceRoot st <> Some rootPath ->
  let st' := ensureService join extname resolveOptions fs run rootPath st in
  let service := {| serviceOf := hostFor fs rootPath |} in
  serviceHost st' = Some (hostFor fs rootPath)
  /\ languageService st' = Some service
  /\ program st'
     = (if hasProgram run then Some {| programOf := service |} else None)
  /\ typeChecker st'
     = (if hasProgram run && hasChecker run
        then Some {| checkerOf := {| programOf := service |} |} else None)
  /\ currentWorkspaceRoot st' = Some rootPath
  /\ isServiceInitialized st' = true
  /\ (forall f, is_Some (fileCache st !! f) -> is_Some (fileCache st' !! f))
  /\ (forall f content,
        fileCache st !! f = Some content -> content <> "" ->
        fileCache st' !! f = Some content
        /\ fileVersions st' !! f = fileVersions st !! f).
Proof.
  intros Hroot. cbn zeta. unfold ensureService.
  rewrite (needsInit_other_root _ _ Hroot).
  unfold initializeTypeScriptService.
  cbn [serviceHost languageService program typeChecker currentWorkspaceRoot
       isServiceInitialized fileCache fileVersions].
  split; [reflexivity |]. split; [reflexivity |]. split; [reflexivity |].
  split; [destruct (hasProgram run), (hasChecker run); reflexivity |].
  split; [reflexivity |]. split; [reflexivity |]. split.
  - intros f Hf. now apply engineReads_cached.
  - intros f content Hf Hne. now apply engineReads_keeps.
Qed.

End Paths.

(** *** Two workspaces *)

(** A disk with the workspaces [/a] and [/b], one source file in each. *)
Definition twoRoots : FS :=
  {| existsSync := fun f => String.eqb f "/a/x.ts" || String.eqb f "/b/y.ts";
     readFileSync := fun f =>
       if String.eqb f "/a/x.ts" then Some "let x = 1"
       else if String.eqb f "/b/y.ts" then Some "let y = true"
       else None;
     readdir := fun root =>
       if String.eqb root "/a" then Enumerate.Entries [Enumerate.FileEnt "x.ts"]
       else if String.eqb root "/b" then Enumerate.Entries [Enumerate.FileEnt "y.ts"]
       else Enumerate.Unreadable |}.

Definition defaultOptions (fs : FS) (rootPath : string) : CompilerOptions :=
  DefaultOptions.

(** The engine asks for the files of the host. *)
Definition readsOf (names : list string) : EngineRun :=
  {| reads := names; hasProgram := true; hasChecker := true |}.

(** The session after a query on [/a/x.ts], edited in the editor. *)
Definition sessionInA : session :=
  updateFileCache "/a/x.ts" "let x = 12"
    (ensureService joinModel extnameModel defaultOptions twoRoots
       (readsOf ["/a/x.ts"]) "/a" activated).

Definition sessionInB : session :=
  ensureService joinModel extnameModel defaultOptions twoRoots
    (readsOf ["/b/y.ts"]) "/b" sessionInA.

Lemma sessionInA_root : currentWorkspaceRoot sessionInA = Some "/a".
Proof. reflexivity. Qed.

(** C1 fails: after the switch from [/a] to [/b] the text and the version
    of [/a/x.ts] are still in the file cache and in the version table. *)
Lemma reinitialization_is_not_a_full_reset :
  currentWorkspaceRoot sessionInA = Some "/a"
  /\ fileCache sessionInA !! "/a/x.ts" = Some "let x = 12"
  /\ currentWorkspaceRoot sessionInB = Some "/b"
  /\ fileCache sessionInB !! "/a/x.ts" = Some "let x = 12"
  /\ fileVersions sessionInB !! "/a/x.ts" = Some 2%N
  /\ fileCache sessionInB <> ∅.
Proof.
  assert (Hc : fileCache sessionInB !! "/a/x.ts" = Some "let x = 12")
    by (vm_compute; reflexivity).
  split; [reflexivity |]. split; [vm_compute; reflexivity |].
  split; [reflexivity |]. split; [exact Hc |].
  split; [vm_compute; reflexivity |].
  intros He. rewrite He, lookup_empty in Hc. discriminate.
Qed.

Lemma reinitialization_keeps_file_records_witness :
  currentWorkspaceRoot sessionInA <> Some "/b"
  /\ serviceHost sessionInB
     = Some (hostFor joinModel extnameModel defaultOptions twoRoots "/b")
  /\ currentWorkspaceRoot sessionInB = Some "/b"
  /\ is_Some (fileCache sessionInB !! "/a/x.ts").
Proof.
  assert (Hroot : currentWorkspaceRoot sessionInA <> Some "/b")
    by (rewrite sessionInA_root; discriminate).
  pose proof (reinitialization_keeps_file_records joinModel extnameModel
                defaultOptions twoRoots (readsOf ["/b/y.ts"]) "/b" sessionInA
                Hroot) as (Hh & _ & _ & _ & Hr & _ & Hk & _).
  split; [exact Hroot |]. split; [exact Hh |]. split; [exact Hr |].
  apply Hk. exists "let x = 12". vm_compute. reflexivity.
Defined.

(** C3: a query with the cached text leaves the session as it is; a query
    with another text stores that text and raises the version the host
    reports by exactly one; the same query made again changes nothing; the
    version never goes down, and no other path is touched. *)
Theorem updateFileCache_policy fileName currentContent st :
  let st' := updateFileCache fileName currentContent st in
  (if decide (fileCache st !! fileName = Some currentContent)
   then st' = st
   else fileCache st' !! fileName = Some currentContent
        /\ versionNumber st' fileName = (versionNumber st fileName + 1)%N)
  /\ updateFileCache fileName currentContent st' = st'
  /\ (versionNumber st fileName <= versionNumber st' fileName)%N
  /\ delete fileName (fileCache st') = delete fileName (fileCache st)
  /\ delete fileName (fileVersions st') = delete fileName (fileVersions st).
Proof.
  cbn zeta. unfold updateFileCache, versionNumber.
  destruct (decide (fileCache st !! fileName = Some currentContent)) as [He | Hne].
  - rewrite (bool_decide_eq_true_2 _ He). cbn [negb].
    rewrite (bool_decide_eq_true_2 _ He). cbn [negb].
    repeat split; reflexivity || lia.
  - rewrite (bool_decide_eq_false_2 _ Hne). cbn [negb].
    rewrite setFiles_cache, setFiles_versions, !lookup_insert_eq.
    rewrite bool_decide_eq_true_2 by reflexivity. cbn [negb].
    assert (Hv : (1 <= versionOr1 (fileVersions st !! fileName))%N).
    { unfold versionOr1. destruct (fileVersions st !! fileName) as [n |]; [| lia].
      destruct (n =? 0)%N eqn:Hn; [lia |]. apply N.eqb_neq in Hn. lia. }
    assert (Hv' : versionOr1 (Some (versionOr1 (fileVersions st !! fileName) + 1)%N)
                  = (versionOr1 (fileVersions st !! fileName) + 1)%N).
    { cbn [versionOr1].
      destruct (versionOr1 (fileVersions st !! fileName) + 1 =? 0)%N eqn:Hn;
        [apply N.eqb_eq in Hn; lia | reflexivity]. }
    rewrite Hv'.
    repeat split; try reflexivity; try lia; apply delete_insert_eq.
Qed.

(** *** The parent fallback *)

Section TypeQuery.

Context {TypeObj : Type} `{EqDecision TypeObj}.
Variable parent : Resolve.Node -> option Resolve.Node.
Variable getTypeAtLocation : Resolve.Node -> option TypeObj.
Variable typeToString :
  TypeObj -> Resolve.Node -> list TypeFormatFlag -> string.

Abbreviation renderType := (renderType parent getTypeAtLocation typeToString).

(** The rendered type of the parent, when there is a parent and it has a
    type. *)
Definition parentRendered (node : Resolve.Node) : option string :=
  match parent node with
  | Some p =>
      match getTypeAtLocation p with
      | Some parentType => Some (typeToString parentType p formatFlags)
      | None => None
      end
  | None => None
  end.

(** The fallback as the specification words it: the parent's string is
    preferred when the child's string is the marker and the parent's string
    differs from it and is not the marker. *)
Definition fallbackSpec (childString : string) (parentString : option string)
  : string :=
  match parentString with
  | Some ps =>
      if String.eqb childString "any"
         && negb (String.eqb ps childString)
         && negb (String.eqb ps "any")
      then ps
      else childString
  | None => childString
  end.

(** The nodes whose type was asked for. *)
Definition queried (log : list (@call TypeObj)) : list Resolve.Node :=
  flat_map (fun c => match c with
                     | GetTypeAtLocation n => [n]
                     | TypeToString _ _ => []
                     end) log.

(** The engine renders a type object as the marker at every node or at
    none. *)
Definition markerIsStable : Prop :=
  forall t n n',
    typeToString t n formatFlags = "any" -> typeToString t n' formatFlags = "any".

(** What the code computes, on type objects. *)
Lemma renderType_result node type :
  fst (renderType node type) =
  match parent node with
  | Some p =>
      match getTypeAtLocation p with
      | Some parentType =>
          if String.eqb (typeToString type node formatFlags) "any"
             && negb (bool_decide (parentType = type))
             && negb (String.eqb (typeToString parentType p formatFlags) "any")
          then typeToString parentType p formatFlags
          else typeToString type node formatFlags
      | None => typeToString type node formatFlags
      end
  | None => typeToString type node formatFlags
  end.
Proof.
  unfold Session.renderType.
  destruct (String.eqb (typeToString type node formatFlags) "any");
    destruct (parent node) as [p |]; try reflexivity;
    destruct (getTypeAtLocation p) as [parentType |]; try reflexivity.
  cbn [andb].
  destruct (negb (bool_decide (parentType = type))); [| reflexivity].
  cbn [andb].
  destruct (negb (String.eqb (typeToString parentType p formatFlags) "any"));
    reflexivity.
Qed.

(** C4: the type of the parent is asked for exactly when the child's
    string is the marker and the node has a parent, it is asked once and for
    the parent only; the result is the parent's string when that string
    differs from the child's and is not the marker, and the child's string
    otherwise. *)
Theorem fallback_to_parent node type :
  markerIsStable ->
  fst (renderType node type)
  = fallbackSpec (typeToString type node formatFlags) (parentRendered node)
  /\ queried (snd (renderType node type))
     = match parent node with
       | Some p =>
           if String.eqb (typeToString type node formatFlags) "any"
           then [p] else []
       | None => []
       end.
Proof.
  intros Hstable. split.
  - rewrite renderType_result. unfold fallbackSpec, parentRendered.
    destruct (parent node) as [p |]; [| reflexivity].
    destruct (getTypeAtLocation p) as [parentType |]; [| reflexivity].
    destruct (String.eqb (typeToString type node formatFlags) "any") eqn:Hc;
      [| reflexivity].
    apply String.eqb_eq in Hc. cbn [andb].
    destruct (decide (parentType = type)) as [-> | Hne].
    + rewrite (Hstable type node p Hc), Hc.
      rewrite bool_decide_eq_true_2 by reflexivity. reflexivity.
    + rewrite (bool_decide_eq_false_2 _ Hne), Hc. cbn [negb andb].
      destruct (String.eqb (typeToString parentType p formatFlags) "any");
        reflexivity.
  - unfold Session.renderType.
    destruct (String.eqb (typeToString type node formatFlags) "any");
      destruct (parent node) as [p |]; try reflexivity.
    destruct (getTypeAtLocation p) as [parentType |]; [| reflexivity].
    destruct (negb (bool_decide (parentType = type))); [| reflexivity].
    destruct (negb (String.eqb (typeToString parentType p formatFlags) "any"));
      reflexivity.
Qed.

End TypeQuery.

(** *** Whole queries *)

Lemma setFiles_same st : setFiles (fileCache st) (fileVersions st) st = st.
Proof. destruct st; reflexivity. Qed.

(** A host callback changes the file cache and the version table only. *)
Lemma getScriptSnapshot_fields fs g st :
  exists c v, snd (getScriptSnapshot fs g st) = setFiles c v st.
Proof.
  unfold getScriptSnapshot.
  destruct (negb (existsSync fs g));
    [exists (fileCache st), (fileVersions st); symmetry; apply setFiles_same |].
  destruct (fileCache st !! g) as [c |]; [destruct (truthy c) |];
    try (exists (fileCache st), (fileVersions st); symmetry; apply setFiles_same);
    (destruct (readFileSync fs g);
     [eauto | exists (fileCache st), (fileVersions st); symmetry; apply setFiles_same]).
Qed.

Lemma engineReads_fields fs names :
  forall st, exists c v, engineReads fs names st = setFiles c v st.
Proof.
  unfold engineReads. induction names as [| g names IH]; intros st.
  - exists (fileCache st), (fileVersions st). symmetry. apply setFiles_same.
  - cbn [fold_left]. destruct (getScriptSnapshot_fields fs g st) as (c & v & ->).
    destruct (IH (setFiles c v st)) as (c' & v' & ->). eauto.
Qed.

(** An empty cached text counts as missing: the file is read again and its
    version is set back to 1. *)
Lemma getScriptSnapshot_rereads_empty fs f st content :
  fileCache st !! f = Some "" -> existsSync fs f = true ->
  readFileSync fs f = Some content ->
  getScriptSnapshot fs f st
  = (Some content,
     setFiles (<[f := content]> (fileCache st)) (<[f := 1%N]> (fileVersions st)) st).
Proof.
  intros Hc He Hr. unfold getScriptSnapshot. now rewrite He, Hc, Hr.
Qed.

Section Query.

Context {TypeObj : Type} `{EqDecision TypeObj}.
Variable parent : Resolve.Node -> option Resolve.Node.
Variable getTypeAtLocation : Resolve.Node -> option TypeObj.
Variable typeToString :
  TypeObj -> Resolve.Node -> list TypeFormatFlag -> string.
Variable join : string -> string -> string.
Variable extname : string -> string.
Variable resolveOptions : FS -> string -> CompilerOptions.
Variable getSourceFile : string -> option Resolve.Node.

Abbreviation getVariableType :=
  (getVariableType parent getTypeAtLocation typeToString join extname
     resolveOptions getSourceFile).
Abbreviation ensureService := (ensureService join extname resolveOptions).

Lemma ensureService_ready fs run rootPath st :
  needsInit rootPath (ensureService fs run rootPath st) = false.
Proof.
  unfold Session.ensureService.
  destruct (needsInit rootPath st) eqn:Hn; [| exact Hn].
  unfold needsInit. cbn [isServiceInitialized currentWorkspaceRoot].
  now rewrite bool_decide_eq_true_2.
Qed.

Lemma ensureService_again fs run rootPath st :
  needsInit rootPath st = false -> ensureService fs run rootPath st = st.
Proof. intros Hn. unfold Session.ensureService. now rewrite Hn. Qed.

(** The state a query leaves behind. *)
Lemma getVariableType_state fs run1 run2 document position st :
  snd (getVariableType fs run1 run2 document position st) =
  match workspaceFolder document with
  | None => st
  | Some rootPath =>
      let st1 := ensureService fs run1 rootPath st in
      match languageService st1, typeChecker st1 with
      | Some _, Some _ =>
          engineReads fs (reads run2)
            (updateFileCache (fsPath document) (getText document) st1)
      | _, _ => st1
      end
  end.
Proof.
  unfold Session.getVariableType.
  destruct (workspaceFolder document) as [rootPath |]; [| reflexivity].
  cbn zeta.
  destruct (languageService _); [| reflexivity].
  destruct (typeChecker _); [| reflexivity].
  destruct (hasProgram run2); [| reflexivity].
  destruct (getSourceFile (fsPath document)); reflexivity.
Qed.

(** X10 (C3 for whole queries): two queries in a row on a document whose text is
    not empty and has not changed leave the version of the document as the
    first query left it, whatever the engine reads in between. *)
Lemma repeated_query_keeps_version fs fs' run1 run2 run1' run2'
  document position position' st :
  getText document <> "" ->
  let st1 := snd (getVariableType fs run1 run2 document position st) in
  let st2 := snd (getVariableType fs' run1' run2' document position' st1) in
  versionNumber st2 (fsPath document) = versionNumber st1 (fsPath document)
  /\ fileCache st2 !! fsPath document = fileCache st1 !! fsPath document.
Proof.
  intros Hne. cbn zeta. rewrite !getVariableType_state.
  destruct (workspaceFolder document) as [rootPath |]; [| now split].
  cbn zeta.
  pose proof (ensureService_ready fs run1 rootPath st) as Hready.
  set (st0 := ensureService fs run1 rootPath st) in *.
  destruct (languageService st0) as [ls |] eqn:Hls;
    [destruct (typeChecker st0) as [tc |] eqn:Htc |].
  - set (st1 := updateFileCache (fsPath document) (getText document) st0).
    assert (Hcache : fileCache st1 !! fsPath document = Some (getText document)).
    { unfold st1, updateFileCache.
      destruct (decide (fileCache st0 !! fsPath document
                        = Some (getText document))) as [He | Hd].
      - now rewrite (bool_decide_eq_true_2 _ He).
      - rewrite (bool_decide_eq_false_2 _ Hd). cbn [negb].
        rewrite setFiles_cache. apply lookup_insert_eq. }
    assert (Hfields : exists c v,
               engineReads fs (reads run2) st1 = setFiles c v st0).
    { destruct (engineReads_fields fs (reads run2) st1) as (c & v & ->).
      unfold st1, updateFileCache.
      destruct (negb (bool_decide _)); eauto. }
    destruct (engineReads_keeps fs (reads run2) st1 _ _ Hcache Hne)
      as [Hk _].
    set (st2 := engineReads fs (reads run2) st1) in *.
    destruct Hfields as (c & v & Hst2).
    assert (Hready2 : needsInit rootPath st2 = false) by (rewrite Hst2; exact Hready).
    rewrite (ensureService_again fs' run1' rootPath st2 Hready2).
    assert (Hls2 : languageService st2 = Some ls) by (rewrite Hst2; exact Hls).
    assert (Htc2 : typeChecker st2 = Some tc) by (rewrite Hst2; exact Htc).
    rewrite Hls2, Htc2.
    assert (Hsame : updateFileCache (fsPath document) (getText document) st2 = st2).
    { unfold updateFileCache. now rewrite (bool_decide_eq_true_2 _ Hk). }
    rewrite Hsame.
    destruct (engineReads_keeps fs' (reads run2') st2 _ _ Hk Hne) as [Hk' Hv'].
    split; [unfold versionNumber; now rewrite Hv' | congruence].
  - rewrite (ensureService_again fs' run1' rootPath st0 Hready), Hls, Htc.
    now split.
  - rewrite (ensureService_again fs' run1' rootPath st0 Hready), Hls.
    now split.
Qed.

End Query.

(** An engine with two type objects: 0 is rendered as the marker, 1 as an
    array type; the parent of every node is the call expression. *)
Definition toyParent (n : Resolve.Node) : option Resolve.Node :=
  Some (Resolve.mkNode 213 0 4 [ResolveFacts.callee; ResolveFacts.argument]).

Definition toyType (n : Resolve.Node) : option nat :=
  match Resolve.kind n with
  | 80 => Some 0
  | _ => Some 1
  end.

Definition toyString (t : nat) (n : Resolve.Node) (fl : list TypeFormatFlag)
  : string :=
  match t with
  | 0 => "any"
  | _ => "Array<number>"
  end.

Lemma fallback_to_parent_witness :
  markerIsStable toyString
  /\ fst (renderType toyParent toyType toyString ResolveFacts.argument 0)
     = "Array<number>"
  /\ queried (snd (renderType toyParent toyType toyString ResolveFacts.argument 0))
     = [Resolve.mkNode 213 0 4 [ResolveFacts.callee; ResolveFacts.argument]].
Proof.
  assert (Hs : markerIsStable toyString).
  { intros t n n'. destruct t; [reflexivity | discriminate]. }
  destruct (fallback_to_parent toyParent toyType toyString
              ResolveFacts.argument 0 Hs) as [Hr Hq].
  split; [exact Hs |]. split; [rewrite Hr; reflexivity | rewrite Hq; reflexivity].
Defined.

End SessionFacts.

(** ** The simple variant *)

Module SimpleFacts.

Import Session(FS, existsSync, readFileSync, readdir, CompilerOptions,
               EngineRun, reads, hasProgram, hasChecker, TypeFormatFlag).
Import Simple.




Section Variant.

Variable join : string -> string -> string.
Variable extname : string -> string.
Variable resolveOptions : FS -> string -> CompilerOptions.
Context {TypeObj : Type}.
Variable getTypeAtLocation : Resolve.Node -> option TypeObj.
Variable typeToString :
  TypeObj -> Resolve.Node -> list TypeFormatFlag -> string.
Variable getSourceFile : string -> option Resolve.Node.

Abbreviation initializeTypeScriptService :=
  (initializeTypeScriptService join extname resolveOptions).
Abbreviation afterQuery :=
  (afterQuery join extname resolveOptions getTypeAtLocation typeToString
     getSourceFile).
Abbreviation afterQueries :=
  (afterQueries join extname resolveOptions getTypeAtLocation typeToString
     getSourceFile).




End Variant.

(** *** An empty file *)




Definition noType (n : Resolve.Node) : option nat := None.
Definition noString (t : nat) (n : Resolve.Node) (fl : list TypeFormatFlag)
  : string := "".
Definition noSourceFile (f : string) : option Resolve.Node := None.

Definition run (qs : list Query) : state :=
  afterQueries joinModel extnameModel SessionFacts.defaultOptions
    noType noString noSourceFile qs activated.



End SimpleFacts.

(** ** The hover variant *)

Module HoverFacts.

Import Hover.

(** The cursor is on the line of the last hover and fewer than ten
    characters away from it. *)
Definition near (cp position : Position) : Prop :=
  line cp = line position
  /\ (character position < character cp + 10)%N
  /\ (character cp < character position + 10)%N.

#[local] Instance near_dec cp position : Decision (near cp position).
Proof. unfold near. apply _. Defined.

Section Variant.

Variable getTypeAtPosition : Document -> Position -> option string.
Variable clipboardAccepts : string -> bool.

Abbreviation copyTypeCommand :=
  (copyTypeCommand getTypeAtPosition clipboardAccepts).
Abbreviation provideHover := (provideHover getTypeAtPosition).

Lemma cachedFor_near t cp position st :
  currentTypeInfo st = Some t -> currentPosition st = Some cp -> t <> "" ->
  cachedFor position st = if decide (near cp position) then Some t else None.
Proof.
  intros Ht Hp Hne. unfold cachedFor. rewrite Ht, Hp.
  apply truthy_true in Hne. rewrite Hne. cbn [andb].
  destruct (decide (near cp position)) as [(Hl & H1 & H2) | Hfar].
  - rewrite Hl, N.eqb_refl. cbn [andb].
    replace (Z.abs (Z.of_N (character cp) - Z.of_N (character position)) <? 10)%Z
      with true; [reflexivity |].
    symmetry. apply Z.ltb_lt. lia.
  - destruct (line cp =? line position)%N eqn:Hl; [| reflexivity].
    apply N.eqb_eq in Hl. cbn [andb].
    destruct (Z.abs (Z.of_N (character cp) - Z.of_N (character position)) <? 10)%Z
      eqn:Hd; [| reflexivity].
    apply Z.ltb_lt in Hd. exfalso. apply Hfar. unfold near. split; [exact Hl |]. lia.
Qed.

Lemma resolves_without_cache ed st :
  cachedFor (selectionActive ed) st = None ->
  exists rest,
    fst (copyTypeCommand (Some ed) st) = Resolved (selectionActive ed) :: rest.
Proof.
  intros Hc. unfold Hover.copyTypeCommand. rewrite Hc.
  destruct (getTypeAtPosition (document ed) (selectionActive ed)) as [t |];
    [| eauto].
  destruct (truthy t); [| eauto].
  destruct (copyTo clipboardAccepts t) as [effects c]. eauto.
Qed.

(** The hover provider stores non-empty strings only, with their position. *)
Lemma provideHover_stores document position st t :
  currentTypeInfo (snd (provideHover document position st)) = Some t ->
  currentTypeInfo st = Some t
  \/ (t <> ""
      /\ currentPosition (snd (provideHover document position st)) = Some position).
Proof.
  unfold Hover.provideHover.
  destruct (getTypeAtPosition document position) as [t' |]; [| now left].
  destruct (truthy t') eqn:Ht; [| now left].
  cbn. intros [= <-]. right. split; [now apply truthy_true | reflexivity].
Qed.

(** C8, as the code has it: with a last hover on the line of the cursor and
    fewer than ten characters away from it, the command writes the cached
    string to the clipboard and does not resolve the type again; ten or more
    characters away, on another line, or without a last hover, it resolves the
    type again. *)
Theorem copy_reuses_last_hover ed st :
  match currentTypeInfo st, currentPosition st with
  | Some t, Some cp =>
      t <> "" ->
      if decide (near cp (selectionActive ed))
      then copyTypeCommand (Some ed) st
           = if clipboardAccepts t
             then ([ClipboardWrite t;
                    ShowInformationMessage ("Type copied to clipboard: " +:+ t)],
                   Returns tt)
             else ([], Throws)
      else exists rest,
             fst (copyTypeCommand (Some ed) st)
             = Resolved (selectionActive ed) :: rest
  | _, _ =>
      exists rest,
        fst (copyTypeCommand (Some ed) st) = Resolved (selectionActive ed) :: rest
  end.
Proof.
  destruct (currentTypeInfo st) as [t |] eqn:Ht;
    [destruct (currentPosition st) as [cp |] eqn:Hp |].
  - intros Hne.
    pose proof (cachedFor_near t cp (selectionActive ed) st Ht Hp Hne) as Hc.
    destruct (decide (near cp (selectionActive ed))).
    + unfold Hover.copyTypeCommand. rewrite Hc. reflexivity.
    + now apply resolves_without_cache.
  - apply resolves_without_cache. unfold cachedFor. now rewrite Ht, Hp.
  - apply resolves_without_cache. unfold cachedFor. now rewrite Ht.
Qed.

End Variant.

(** *** A hover at column 0 and a cursor at column 10 *)

Definition someDocument : Document :=
  {| fsPath := "/a/x.ts"; getText := "const total = price * count";
     workspaceFolder := Some "/a"; offsetAt := fun p => character p |}.

Definition editorAt (column : N) : Editor :=
  {| document := someDocument; selectionText := "";
     selectionActive := {| line := 0; character := column |};
     wordRangeAt := fun _ => None |}.

Definition hovered : state :=
  {| currentTypeInfo := Some "number";
     currentPosition := Some {| line := 0; character := 0 |} |}.

(** The host's providers answer [string] everywhere. *)
Definition alwaysString (d : Document) (p : Position) : option string :=
  Some "string".

Definition accepts (s : string) : bool := true.

(** C8 fails at a distance of exactly ten characters: the cached string
    [number] is not used, the type is resolved again and [string] is
    copied. *)
Lemma ten_characters_away_resolves_again :
  line {| line := 0; character := 0 |} = line (selectionActive (editorAt 10))
  /\ (Z.abs (Z.of_N 0 - Z.of_N (character (selectionActive (editorAt 10)))) <= 10)%Z
  /\ copyTypeCommand alwaysString accepts (Some (editorAt 10)) hovered
     = ([Resolved {| line := 0; character := 10 |};
         ClipboardWrite "string";
         ShowInformationMessage "Type copied to clipboard: string"],
        Returns tt).
Proof. split; [reflexivity |]. split; [cbn; lia | reflexivity]. Qed.

Definition rejects (s : string) : bool := false.

(** This handler has no [try]: a clipboard that rejects the write makes the
    command fail, with nothing shown. *)
Example copyTypeCommand_clipboard_failure :
  copyTypeCommand alwaysString rejects (Some (editorAt 3)) hovered
  = ([], Throws).
Proof. reflexivity. Qed.

Lemma copy_reuses_last_hover_witness :
  "number" <> ""
  /\ copyTypeCommand alwaysString accepts (Some (editorAt 9)) hovered
     = ([ClipboardWrite "number";
         ShowInformationMessage "Type copied to clipboard: number"],
        Returns tt).
Proof.
  assert (Hne : "number" <> "") by discriminate.
  split; [exact Hne |].
  exact (copy_reuses_last_hover alwaysString accepts (editorAt 9) hovered Hne).
Defined.

End HoverFacts.

(** ** The command handlers *)

Module CommandFacts.

Import Command.

(** The three outcomes of a command. *)
Inductive oneOutcome : list effect -> Prop :=
| Copied (prefix text : string) :
    oneOutcome [ClipboardWrite text; ShowInformationMessage (prefix +:+ text)]
| Warned (message : string) : oneOutcome [ShowWarningMessage message]
| Failed (message : string) : oneOutcome [ShowErrorMessage message].

Section Handlers.

Variable getVariableType :
  Document -> Position -> string -> completion (option string).
Variable clipboardAccepts : string -> bool.

Abbreviation copyTypeAtCursor :=
  (copyTypeAtCursor getVariableType clipboardAccepts).
Abbreviation copyVariableType :=
  (copyVariableType getVariableType clipboardAccepts).
Abbreviation copyTypeShortcut :=
  (copyTypeShortcut getVariableType clipboardAccepts).

Lemma copyTypeAtCursor_outcome editor :
  oneOutcome (outcome (fst (copyTypeAtCursor editor)))
  /\ snd (copyTypeAtCursor editor) = Returns tt.
Proof.
  unfold Command.copyTypeAtCursor.
  destruct editor as [ed |]; [| split; [apply Failed | reflexivity]].
  destruct (target ed) as [selectedText position].
  destruct (negb (truthy selectedText)); [split; [apply Warned | reflexivity] |].
  destruct (getVariableType (document ed) position selectedText) as [[t |] |];
    try (split; [apply Warned || apply Failed | reflexivity]).
  destruct (truthy t); [| split; [apply Warned | reflexivity]].
  destruct (clipboardAccepts t); split;
    reflexivity || apply Failed || apply Copied.
Qed.

Lemma copyVariableType_outcome editor :
  oneOutcome (outcome (fst (copyVariableType editor)))
  /\ snd (copyVariableType editor) = Returns tt.
Proof.
  unfold Command.copyVariableType.
  destruct editor as [ed |]; [| split; [apply Failed | reflexivity]].
  destruct (target ed) as [selectedText position].
  destruct (negb (truthy selectedText)); [split; [apply Warned | reflexivity] |].
  destruct (getVariableType (document ed) position selectedText) as [[t |] |];
    try (split; [apply Warned || apply Failed | reflexivity]).
  destruct (truthy t); [| split; [apply Warned | reflexivity]].
  destruct (clipboardAccepts t); split;
    reflexivity || apply Failed || apply Copied.
Qed.

(** The situations a command can be in. *)
Inductive situation :=
| NoActiveEditor
| NothingSelected
| InternalFailure
| NoTypeFound (name : string)
| TypeResolved (typeInfo : string).

(** The text a command asks the type of: the selection, or else the word at
    the cursor, asked at the start of the word. *)
Definition asked (ed : Editor) : string * Position :=
  if String.eqb (selectionText ed) "" then
    match wordRangeAt ed (selectionActive ed) with
    | Some (start, word) => (word, start)
    | None => ("", selectionActive ed)
    end
  else (selectionText ed, selectionActive ed).

(** The situation, from the editor, the resolver and the clipboard: a
    failure is a resolver that throws or a clipboard that rejects the text; no
    type is a resolver that returns null or the empty string. *)
Definition situationOf (editor : option Editor) : situation :=
  match editor with
  | None => NoActiveEditor
  | Some ed =>
      let (name, position) := asked ed in
      if String.eqb name "" then NothingSelected
      else
        match getVariableType (document ed) position name with
        | Throws => InternalFailure
        | Returns None => NoTypeFound name
        | Returns (Some typeInfo) =>
            if String.eqb typeInfo "" then NoTypeFound name
            else if clipboardAccepts typeInfo then TypeResolved typeInfo
            else InternalFailure
        end
  end.

(** What each situation shows, in the rich and in the simple variant. *)
Definition richOutcome (s : situation) : list effect :=
  match s with
  | NoActiveEditor => [ShowErrorMessage "No active editor"]
  | NothingSelected =>
      [ShowWarningMessage "Please select a variable or place cursor on a variable"]
  | InternalFailure => [ShowErrorMessage "Failed to get type information"]
  | NoTypeFound name =>
      [ShowWarningMessage
         ("Unable to get type information for variable "
          +:+ dquote +:+ name +:+ dquote)]
  | TypeResolved typeInfo =>
      [ClipboardWrite typeInfo;
       ShowInformationMessage ("Type copied: " +:+ typeInfo)]
  end.

Definition simpleOutcome (s : situation) : list effect :=
  match s with
  | NoActiveEditor => [ShowErrorMessage "没有活动的编辑器"]
  | NothingSelected => [ShowWarningMessage "请选择一个变量或将光标放在变量上"]
  | InternalFailure => [ShowErrorMessage "获取类型信息失败"]
  | NoTypeFound name =>
      [ShowWarningMessage
         ("无法获取变量 " +:+ dquote +:+ name +:+ dquote +:+ " 的类型信息")]
  | TypeResolved typeInfo =>
      [ClipboardWrite typeInfo;
       ShowInformationMessage ("类型已复制: " +:+ typeInfo)]
  end.

Lemma target_asked ed : target ed = asked ed.
Proof.
  unfold target, asked, truthy.
  destruct (String.eqb (selectionText ed) "") eqn:He; [| reflexivity].
  apply String.eqb_eq in He. cbn [negb].
  destruct (wordRangeAt ed (selectionActive ed)) as [[start word] |];
    [reflexivity | now rewrite He].
Qed.

Lemma copyTypeAtCursor_situation editor :
  outcome (fst (copyTypeAtCursor editor)) = richOutcome (situationOf editor).
Proof.
  unfold Command.copyTypeAtCursor, situationOf.
  destruct editor as [ed |]; [| reflexivity].
  rewrite target_asked. destruct (asked ed) as [name position].
  unfold truthy. destruct (String.eqb name ""); [reflexivity |]. cbn [negb].
  destruct (getVariableType (document ed) position name) as [[t |] |];
    try reflexivity.
  destruct (String.eqb t ""); [reflexivity |]. cbn [negb].
  destruct (clipboardAccepts t); reflexivity.
Qed.

Lemma copyVariableType_situation editor :
  outcome (fst (copyVariableType editor)) = simpleOutcome (situationOf editor).
Proof.
  unfold Command.copyVariableType, situationOf.
  destruct editor as [ed |]; [| reflexivity].
  rewrite target_asked. destruct (asked ed) as [name position].
  unfold truthy. destruct (String.eqb name ""); [reflexivity |]. cbn [negb].
  destruct (getVariableType (document ed) position name) as [[t |] |];
    try reflexivity.
  destruct (String.eqb t ""); [reflexivity |]. cbn [negb].
  destruct (clipboardAccepts t); reflexivity.
Qed.

(** C9: whatever the editor, the resolver and the clipboard do, each copy
    command returns normally and its outcome is a clipboard write followed by
    an information message that ends with the copied string, or one warning,
    or one error message.  Which one is fixed by the situation: without an
    active editor, the error message and nothing written; with no selection
    and no word at the cursor, the warning; when the resolver throws or the
    clipboard rejects the text, the error message; when the resolver returns
    null or the empty string, the warning that names the variable; otherwise
    the string the resolver returned is written to the clipboard and shown in
    the information message. *)
Theorem command_has_one_outcome editor :
  (oneOutcome (outcome (fst (copyTypeAtCursor editor)))
   /\ snd (copyTypeAtCursor editor) = Returns tt)
  /\ (oneOutcome (outcome (fst (copyVariableType editor)))
      /\ snd (copyVariableType editor) = Returns tt)
  /\ (oneOutcome (outcome (fst (copyTypeShortcut editor)))
      /\ snd (copyTypeShortcut editor) = Returns tt)
  /\ copyTypeAtCursor None = ([ShowErrorMessage "No active editor"], Returns tt)
  /\ copyVariableType None = ([ShowErrorMessage "没有活动的编辑器"], Returns tt)
  /\ outcome (fst (copyTypeAtCursor editor)) = richOutcome (situationOf editor)
  /\ outcome (fst (copyVariableType editor)) = simpleOutcome (situationOf editor)
  /\ outcome (fst (copyTypeShortcut editor)) = simpleOutcome (situationOf editor).
Proof.
  split; [apply copyTypeAtCursor_outcome |].
  split; [apply copyVariableType_outcome |].
  split; [split; [apply copyVariableType_outcome | reflexivity] |].
  split; [reflexivity |]. split; [reflexivity |].
  split; [apply copyTypeAtCursor_situation |].
  split; apply copyVariableType_situation.
Qed.

End Handlers.

End CommandFacts.

(** * Further properties of the code *)

(** ** The two enumerations *)

Module EnumerateMore.

Import Enumerate EnumerateFacts.

Lemma richExts_simpleExts ext :
  includes sourceExts ext = true -> includes Simple.sourceExts ext = true.
Proof.
  rewrite !includes_true. cbn. intuition.
Qed.

Lemma simpleSkip_richSkip name :
  includes Simple.skipDirs name = true -> includes skipDirs name = true.
Proof.
  rewrite !includes_true. cbn. intuition.
Qed.

Section Walk.

Variable join : string -> string -> string.
Variable extname : string -> string.

Abbreviation searchFiles := (searchFiles join extname).
Abbreviation loopEntries := (loopEntries join extname).
Abbreviation simpleSearch := (Simple.searchFiles join extname).

(** The [for] loop of the simple variant's [searchFiles]. *)
Fixpoint simpleLoop (dir : string) (es : list Dirent) (files : list string)
  : list string :=
  match es with
  | [] => files
  | e :: es' =>
      match e with
      | DirEnt name sub =>
          if negb (includes Simple.skipDirs name)
          then simpleLoop dir es' (simpleSearch (join dir name) sub files)
          else simpleLoop dir es' files
      | FileEnt name =>
          if includes Simple.sourceExts (extname name)
          then simpleLoop dir es' (files ++ [join dir name])
          else simpleLoop dir es' files
      | OtherEnt _ => simpleLoop dir es' files
      end
  end.

Lemma simpleSearch_entries dir es acc :
  simpleSearch dir (Entries es) acc = simpleLoop dir es acc.
Proof.
  cbn [Simple.searchFiles]. revert acc.
  induction es as [| e es IH]; intros acc; [reflexivity |].
  cbn [simpleLoop].
  destruct e as [name | name sub | name]; [| | apply IH].
  - destruct (includes Simple.sourceExts (extname name)); apply IH.
  - destruct (negb (includes Simple.skipDirs name)); apply IH.
Qed.

(** The simple walk only appends to what it was given. *)
Lemma simpleSearch_appends l :
  forall dir acc, exists added, simpleSearch dir l acc = acc ++ added.
Proof.
  induction l as [| es IH] using Listing_induction; intros dir acc.
  - exists []. cbn. now rewrite app_nil_r.
  - rewrite simpleSearch_entries. revert acc.
    induction IH as [| e es He _ IHes]; intros acc.
    + exists []. cbn. now rewrite app_nil_r.
    + cbn [simpleLoop]. destruct e as [name | name sub | name]; [| | apply IHes].
      * destruct (includes Simple.sourceExts (extname name)); [| apply IHes].
        destruct (IHes (acc ++ [join dir name])) as (added & ->).
        exists (join dir name :: added). now rewrite <- app_assoc.
      * destruct (negb (includes Simple.skipDirs name)); [| apply IHes].
        destruct (He (join dir name) acc) as (a1 & ->).
        destruct (IHes (acc ++ a1)) as (a2 & ->).
        exists (a1 ++ a2). now rewrite app_assoc.
Qed.

Lemma simpleLoop_appends dir es acc :
  exists added, simpleLoop dir es acc = acc ++ added.
Proof.
  rewrite <- simpleSearch_entries. apply simpleSearch_appends.
Qed.

(** From the same directory, what the bounded walk of the rich variant adds
    is a sublist of what the walk of the simple variant adds. *)
Lemma rich_adds_sublist l :
  forall dir depth w acc,
  exists ar asim,
    files (searchFiles dir l depth w) = files w ++ ar
    /\ simpleSearch dir l acc = acc ++ asim
    /\ sublist ar asim.
Proof.
  induction l as [| es IH] using Listing_induction; intros dir depth w acc.
  - exists [], []. rewrite searchFiles_unreadable.
    destruct ((maxDepth <? depth) || full w); cbn;
      rewrite !app_nil_r; repeat split; constructor.
  - rewrite searchFiles_entries, simpleSearch_entries.
    destruct ((maxDepth <? depth) || full w).
    { destruct (simpleLoop_appends dir es acc) as (asim & ->).
      exists [], asim. rewrite app_nil_r.
      repeat split. apply sublist_nil_l. }
    change (files w) with (files (log (Readdir dir depth) w)).
    generalize (log (Readdir dir depth) w). clear w. revert acc.
    induction IH as [| e es He _ IHes]; intros acc w.
    { exists [], []. cbn. rewrite !app_nil_r. repeat split. constructor. }
    cbn [Enumerate.loopEntries simpleLoop].
    destruct (full w).
    { destruct (simpleLoop_appends dir (e :: es) acc) as (asim & Hs).
      cbn [simpleLoop] in Hs. rewrite Hs.
      exists [], asim. rewrite app_nil_r. repeat split. apply sublist_nil_l. }
    destruct e as [name | name sub | name]; [| | apply IHes].
    + destruct (includes sourceExts (extname name)) eqn:Hr.
      * rewrite (richExts_simpleExts _ Hr).
        destruct (IHes (acc ++ [join dir name]) (push (join dir name) w))
          as (ar & asim & -> & -> & Hsub).
        exists (join dir name :: ar), (join dir name :: asim).
        cbn [push files]. rewrite <- !app_assoc.
        repeat split. now constructor.
      * destruct (includes Simple.sourceExts (extname name)); [| apply IHes].
        destruct (IHes (acc ++ [join dir name]) w) as (ar & asim & -> & -> & Hsub).
        exists ar, (join dir name :: asim). rewrite <- app_assoc.
        repeat split. now constructor.
    + destruct (negb (includes skipDirs name) && negb (startsWithDot name)) eqn:Hk.
      * assert (Hs : negb (includes Simple.skipDirs name) = true).
        { apply andb_true_iff in Hk as [Hk _]. apply negb_true_iff in Hk.
          apply negb_true_iff.
          destruct (includes Simple.skipDirs name) eqn:Hi; [| reflexivity].
          apply simpleSkip_richSkip in Hi. congruence. }
        rewrite Hs.
        destruct (He (join dir name) (S depth) (log (Descend name (S depth)) w) acc)
          as (a1 & s1 & Hr1 & -> & Hsub1).
        destruct (IHes (acc ++ s1)
                    (searchFiles (join dir name) sub (S depth)
                       (log (Descend name (S depth)) w)))
          as (a2 & s2 & -> & -> & Hsub2).
        exists (a1 ++ a2), (s1 ++ s2). rewrite Hr1. cbn [log files].
        rewrite !app_assoc. repeat split. now apply sublist_app.
      * destruct (negb (includes Simple.skipDirs name)); [| apply IHes].
        destruct (simpleSearch_appends sub (join dir name) acc) as (s1 & ->).
        destruct (IHes (acc ++ s1) w) as (a2 & s2 & -> & -> & Hsub2).
        exists a2, (s1 ++ s2). rewrite app_assoc. repeat split.
        now apply sublist_inserts_l.
Qed.

(** X2: every path the rich variant enumerates is enumerated by the simple
    variant on the same tree, in the same order: the rich walk skips more
    directories, accepts fewer extensions and stops earlier. *)
Theorem rich_enumeration_sublist_of_simple rootPath root :
  sublist (getAllTsFiles join extname rootPath root)
          (Simple.getAllTsFiles join extname rootPath root).
Proof.
  unfold getAllTsFiles, getAllTsFiles_walk, Simple.getAllTsFiles.
  destruct (rich_adds_sublist root rootPath 0 {| files := []; trace := [] |} [])
    as (ar & asim & -> & -> & Hsub).
  exact Hsub.
Qed.

(** X1: whatever the tree, the rich variant enumerates at most 1001
    paths. *)
Theorem enumeration_bounded rootPath root :
  length (getAllTsFiles join extname rootPath root) <= S maxFiles.
Proof.
  unfold getAllTsFiles, getAllTsFiles_walk.
  pose proof (searchFiles_length join extname root rootPath 0
                {| files := []; trace := [] |}) as Hl.
  cbn [files length] in Hl. lia.
Qed.

(** The names of a directory that holds files only. *)
Definition accepted (exts : list string) (names : list string) : list string :=
  List.filter (fun name => includes exts (extname name)) names.

Lemma loopEntries_flat dir depth names :
  forall w,
    length (files w) <= S maxFiles ->
    files (loopEntries dir depth (map FileEnt names) w)
    = files w
      ++ take (S maxFiles - length (files w))
           (map (join dir) (accepted sourceExts names)).
Proof.
  induction names as [| name names IH]; intros w Hw.
  - cbn. now rewrite take_nil, app_nil_r.
  - cbn [map Enumerate.loopEntries]. unfold full.
    destruct (maxFiles <? length (files w)) eqn:Hf.
    + apply Nat.ltb_lt in Hf.
      replace (S maxFiles - length (files w)) with 0 by lia.
      cbn. now rewrite app_nil_r.
    + apply Nat.ltb_ge in Hf. unfold accepted. cbn [List.filter].
      destruct (includes sourceExts (extname name)); [| now apply IH].
      rewrite IH by (cbn [push files]; rewrite length_app; cbn; lia).
      cbn [push files map]. rewrite length_app. cbn [length].
      replace (S maxFiles - length (files w))
        with (S (S maxFiles - (length (files w) + 1))) by lia.
      cbn [take]. now rewrite <- app_assoc.
Qed.

(** X3: on a directory that holds files only, the rich variant returns the
    first 1001 paths with an accepted extension, in directory order. *)
Theorem getAllTsFiles_flat rootPath names :
  getAllTsFiles join extname rootPath (Entries (map FileEnt names))
  = take (S maxFiles) (map (join rootPath) (accepted sourceExts names)).
Proof.
  unfold getAllTsFiles, getAllTsFiles_walk.
  rewrite searchFiles_entries. cbn [orb full files length Nat.ltb Nat.leb maxDepth].
  change ((maxDepth <? 0) || full {| files := []; trace := [] |}) with false.
  cbv iota.
  rewrite loopEntries_flat by (cbn; lia). reflexivity.
Qed.

(** X4: on a directory that holds files only, the simple variant returns
    all the paths with an accepted extension, in directory order. *)
Theorem simple_getAllTsFiles_flat rootPath names :
  Simple.getAllTsFiles join extname rootPath (Entries (map FileEnt names))
  = map (join rootPath) (accepted Simple.sourceExts names).
Proof.
  unfold Simple.getAllTsFiles. rewrite simpleSearch_entries.
  change (map (join rootPath) (accepted Simple.sourceExts names))
    with ([] ++ map (join rootPath) (accepted Simple.sourceExts names)).
  generalize (@nil string).
  induction names as [| name names IH]; intros acc.
  - cbn. now rewrite app_nil_r.
  - cbn [map simpleLoop]. unfold accepted. cbn [List.filter].
    destruct (includes Simple.sourceExts (extname name)); [| apply IH].
    rewrite IH. cbn [map]. now rewrite <- app_assoc.
Qed.

End Walk.

End EnumerateMore.

(** ** The skip-list of the simple variant *)

Module SimpleWalkFacts.

Import Enumerate.

Section Walk.

Variable join : string -> string -> string.
Variable extname : string -> string.

Abbreviation simpleLoop := (EnumerateMore.simpleLoop join extname).

Lemma simpleLoop_skips dir name sub sub' post :
  includes Simple.skipDirs name = true ->
  forall pre acc,
    simpleLoop dir (pre ++ DirEnt name sub :: post) acc
    = simpleLoop dir (pre ++ DirEnt name sub' :: post) acc.
Proof.
  intros Hskip pre. induction pre as [| e pre IH]; intros acc.
  - cbn [app EnumerateMore.simpleLoop]. now rewrite Hskip.
  - cbn [app EnumerateMore.simpleLoop].
    destruct e as [n | n s | n]; [| | apply IH].
    + destruct (includes Simple.sourceExts (extname n)); apply IH.
    + destruct (negb (includes Simple.skipDirs n)); apply IH.
Qed.

(** X5: the enumeration of the simple variant does not depend on what lies
    below a directory of the root named in its skip-list ([node_modules],
    [.git], [dist], [build], [.vscode]). *)
Theorem simple_enumeration_ignores_skipped rootPath name sub sub' pre post :
  In name Simple.skipDirs ->
  Simple.getAllTsFiles join extname rootPath
    (Entries (pre ++ DirEnt name sub :: post))
  = Simple.getAllTsFiles join extname rootPath
      (Entries (pre ++ DirEnt name sub' :: post)).
Proof.
  intros Hin. apply includes_true in Hin. unfold Simple.getAllTsFiles.
  rewrite !EnumerateMore.simpleSearch_entries. now apply simpleLoop_skips.
Qed.

End Walk.

(** A hidden directory other than [.git] and [.vscode] is walked by the
    simple variant and skipped by the rich one. *)
Definition hiddenProject : Listing :=
  Entries [ DirEnt ".cache" (Entries [FileEnt "tmp.js"]);
            DirEnt "node_modules" (Entries [FileEnt "dep.js"]);
            FileEnt "app.vue" ].

Example simple_getAllTsFiles_hidden :
  Simple.getAllTsFiles joinModel extnameModel "/p" hiddenProject
  = ["/p/.cache/tmp.js"; "/p/app.vue"]
  /\ getAllTsFiles joinModel extnameModel "/p" hiddenProject = [].
Proof. split; reflexivity. Qed.

Lemma simple_enumeration_ignores_skipped_witness :
  In "node_modules" Simple.skipDirs
  /\ Simple.getAllTsFiles joinModel extnameModel "/p" hiddenProject
     = Simple.getAllTsFiles joinModel extnameModel "/p"
         (Entries [ DirEnt ".cache" (Entries [FileEnt "tmp.js"]);
                    DirEnt "node_modules" Unreadable;
                    FileEnt "app.vue" ]).
Proof.
  assert (Hin : In "node_modules" Simple.skipDirs) by (cbn; tauto).
  split; [exact Hin |].
  exact (simple_enumeration_ignores_skipped joinModel extnameModel "/p"
           "node_modules" (Entries [FileEnt "dep.js"]) Unreadable
           [DirEnt ".cache" (Entries [FileEnt "tmp.js"])] [FileEnt "app.vue"]
           Hin).
Defined.

End SimpleWalkFacts.

(** ** More on the two resolvers *)

Module ResolveMore.

Import Resolve ResolveFacts.

(** *** Ties in the rich resolver *)

(** What the three variables of [visit] hold after the nodes [seen], with
    the place of the recorded node among them. *)
Definition tracksFirst (b : best) (seen : list Node) : Prop :=
  match result b with
  | None => b = initial /\ seen = []
  | Some n =>
      bestStart b = Z.of_N (getStart n)
      /\ bestEnd b = Fin (getEnd n)
      /\ exists before after,
           seen = before ++ n :: after
           /\ Forall (fun m => tighter n m) before
           /\ Forall (fun m => ~ tighter m n) after
  end.

Lemma tighter_over m n x : tighter m n -> ~ tighter x n -> tighter m x.
Proof. unfold tighter. lia. Qed.

Lemma consider_tracksFirst b seen m :
  tracksFirst b seen -> tracksFirst (consider b m) (seen ++ [m]).
Proof.
  unfold tracksFirst, consider. destruct (result b) as [n |] eqn:Hr.
  - intros (Hs & He & before & after & -> & Hb & Ha).
    destruct (morePrecise m b) eqn:Hm.
    + cbn [result bestStart bestEnd].
      apply (morePrecise_tracked m n b Hs He) in Hm.
      split; [reflexivity |]. split; [reflexivity |].
      exists (before ++ n :: after), []. split; [reflexivity |].
      split; [| constructor].
      apply Forall_app. split.
      * eapply List.Forall_impl; [| exact Hb]. cbn. intros x Hx.
        eapply tighter_trans; eassumption.
      * constructor; [exact Hm |].
        eapply List.Forall_impl; [| exact Ha]. cbn. intros x Hx.
        eapply tighter_over; eassumption.
    + rewrite Hr. split; [exact Hs |]. split; [exact He |].
      exists before, (after ++ [m]). split; [now rewrite <- app_assoc |].
      split; [exact Hb |]. apply Forall_app. split; [exact Ha |].
      constructor; [| constructor].
      intros Ht. pose proof (proj2 (morePrecise_tracked m n b Hs He) Ht).
      congruence.
  - intros [-> ->]. cbn.
    assert (Hm : morePrecise m initial = true).
    { unfold morePrecise, initial. cbn [bestStart].
      apply orb_true_iff. left. apply Z.ltb_lt. lia. }
    rewrite Hm. cbn [result bestStart bestEnd].
    split; [reflexivity |]. split; [reflexivity |].
    exists [], []. repeat split; constructor.
Qed.

Lemma fold_consider_tracksFirst l :
  forall b seen,
    tracksFirst b seen -> tracksFirst (fold_left consider l b) (seen ++ l).
Proof.
  induction l as [| m l IH]; intros b seen Hb.
  - now rewrite app_nil_r.
  - cbn [fold_left].
    replace (seen ++ m :: l) with ((seen ++ [m]) ++ l)
      by (now rewrite <- app_assoc).
    apply IH. now apply consider_tracksFirst.
Qed.

(** X22: among the nodes it reaches, in the order it reaches them, the rich
    resolver returns the first of the tightest: every node reached before the
    result is strictly less tight than it, and no node reached after it is
    tighter.  A node reached later with the same range, such as a child that
    spans its parent, does not replace it. *)
Theorem findMostSpecificNodeAtPosition_first sourceFile position :
  match findMostSpecificNodeAtPosition sourceFile position with
  | Some n =>
      exists before after,
        candidates position sourceFile = before ++ n :: after
        /\ Forall (fun m => tighter n m) before
        /\ Forall (fun m => ~ tighter m n) after
  | None => candidates position sourceFile = []
  end.
Proof.
  unfold findMostSpecificNodeAtPosition. rewrite visit_candidates.
  pose proof (fold_consider_tracksFirst (candidates position sourceFile)
                initial [] (conj eq_refl eq_refl)) as Ht.
  cbn [app] in Ht. unfold tracksFirst in Ht.
  destruct (result (fold_left consider (candidates position sourceFile) initial))
    as [n |].
  - destruct Ht as (_ & _ & Hfirst). exact Hfirst.
  - destruct Ht as [_ Hnil]. exact Hnil.
Qed.

Example candidates_fooFile :
  candidates 1 fooFile = [fooFile; fooStatement; fooIdentifier].
Proof. reflexivity. Qed.

Lemma forEachChild_some {A} (cb : Node -> option A) cs r :
  forEachChild cb cs = Some r ->
  exists before c after,
    cs = before ++ c :: after /\ cb c = Some r
    /\ Forall (fun b => cb b = None) before.
Proof.
  induction cs as [| c cs IH]; [discriminate |].
  cbn [forEachChild]. destruct (cb c) as [r' |] eqn:Hc.
  - intros [= <-]. exists [], c, cs. repeat split; [exact Hc | constructor].
  - intros H. destruct (IH H) as (before & c' & after & -> & Hc' & Hb).
    exists (c :: before), c', after. repeat split; [exact Hc' |].
    now constructor.
Qed.

Lemma forEachChild_none {A} (cb : Node -> option A) cs :
  forEachChild cb cs = None -> Forall (fun c => cb c = None) cs.
Proof.
  induction cs as [| c cs IH]; [constructor |].
  cbn [forEachChild]. destruct (cb c) eqn:Hc; [discriminate |].
  intros H. constructor; [exact Hc | now apply IH].
Qed.

Lemma find_none_iff position node :
  find position node = None <-> covers position node = false.
Proof.
  rewrite find_unfold. destruct (covers position node); [| tauto].
  destruct (forEachChild (find position) (children node)); split; discriminate.
Qed.

(** What the greedy resolver returns, on any tree: a node reached through
    nodes that cover the offset, that covers the offset itself and none of
    whose children covers it. *)
Lemma find_deepest position node :
  forall d,
    find position node = Some d ->
    In d (candidates position node)
    /\ covers position d = true
    /\ Forall (fun c => covers position c = false) (children d).
Proof.
  induction node as [k s e cs IH] using Node_induction. intros d.
  rewrite find_unfold, candidates_unfold.
  destruct (covers position (mkNode k s e cs)) eqn:Hc; [| discriminate].
  cbn [children].
  destruct (forEachChild (find position) cs) as [r |] eqn:Hf.
  - intros [= <-]. apply forEachChild_some in Hf
      as (before & c & after & -> & Hr & _).
    rewrite List.Forall_forall in IH.
    destruct (IH c (in_elt c before after) r Hr) as (Hin & Hcov & Hch).
    split; [| now split]. right. apply in_flat_map. exists c.
    split; [apply in_elt | exact Hin].
  - intros [= <-]. split; [now left |]. split; [exact Hc |].
    cbn [children]. apply forEachChild_none in Hf.
    eapply List.Forall_impl; [| exact Hf]. cbn. intros c. apply find_none_iff.
Qed.

Lemma greedy_result sourceFile position :
  match findNodeAtPosition sourceFile position with
  | Some d =>
      In d (nodes sourceFile)
      /\ covers position sourceFile = true
      /\ covers position d = true
      /\ Forall (fun c => covers position c = false) (children d)
  | None => covers position sourceFile = false
  end.
Proof.
  unfold findNodeAtPosition.
  destruct (find position sourceFile) as [d |] eqn:Hf.
  - destruct (find_deepest position sourceFile d Hf) as (Hin & Hc & Hch).
    split; [eapply candidates_nodes; exact Hin |].
    split; [| now split].
    rewrite candidates_unfold in Hin.
    destruct (covers position sourceFile); [reflexivity | destruct Hin].
  - now apply find_none_iff.
Qed.

(** X6: the greedy resolver answers exactly when the root covers the offset,
    with a node of the tree that covers the offset and none of whose children
    covers it. *)
Theorem findNodeAtPosition_deepest sourceFile position :
  match findNodeAtPosition sourceFile position with
  | Some d =>
      In d (nodes sourceFile)
      /\ covers position sourceFile = true
      /\ covers position d = true
      /\ Forall (fun c => covers position c = false) (children d)
  | None => covers position sourceFile = false
  end.
Proof. apply greedy_result. Qed.

Section DeepestAtOffset.

Variable position : N.
Variable d : Node.
Hypothesis d_covers : covers position d = true.
Hypothesis d_deepest : Forall (fun c => covers position c = false) (children d).

Lemma covers_above node :
  wellFormed node -> In d (nodes node) -> covers position node = true.
Proof.
  intros Hwf Hin. destruct (nodes_within node Hwf d Hin).
  apply covers_spec in d_covers. apply covers_spec. lia.
Qed.

Lemma no_candidate_below_deepest m :
  ~ In m (flat_map (candidates position) (children d)).
Proof.
  intros Hm. apply in_flat_map in Hm as (c & Hc & Hm).
  rewrite List.Forall_forall in d_deepest. specialize (d_deepest c Hc).
  rewrite candidates_unfold, d_deepest in Hm. destruct Hm.
Qed.

(** In a well-formed tree every node the rich resolver reaches lies on the
    path from the root to the node the greedy resolver stops at. *)
Lemma candidates_above node :
  wellFormed node -> In d (nodes node) ->
  forall m, In m (candidates position node) -> In d (nodes m).
Proof.
  induction node as [k s e cs IH] using Node_induction. intros Hwf Hin m.
  rewrite candidates_unfold, (covers_above _ Hwf Hin). cbn [children].
  intros [<- | Hm]; [exact Hin |].
  apply wellFormed_unfold in Hwf as [Ho Hcs]. cbn [children] in *.
  rewrite nodes_unfold in Hin. cbn [children] in Hin.
  destruct Hin as [Hd | Hin].
  { exfalso. apply (no_candidate_below_deepest m). now rewrite <- Hd. }
  apply in_flat_map in Hm as (c & Hc & Hm).
  apply in_flat_map in Hin as (c' & Hc' & Hl).
  rewrite List.Forall_forall in IH, Hcs.
  destruct (Hcs c' Hc') as (_ & _ & Hwc').
  assert (Hp' : covers position c' = true) by now apply covers_above.
  assert (Hp : covers position c = true).
  { destruct (covers position c) eqn:Hp; [reflexivity |].
    rewrite candidates_unfold, Hp in Hm. destruct Hm. }
  assert (c = c') as -> by (eapply ordered_disjoint; eassumption).
  now apply (IH c' Hc' Hwc' Hl).
Qed.

End DeepestAtOffset.

Lemma wellFormed_subtree root :
  wellFormed root -> forall n, In n (nodes root) -> wellFormed n.
Proof.
  induction root as [k s e cs IH] using Node_induction. intros Hwf n Hn.
  rewrite nodes_unfold in Hn. destruct Hn as [<- | Hn]; [exact Hwf |].
  apply wellFormed_unfold in Hwf as [_ Hcs]. cbn [children] in *.
  apply in_flat_map in Hn as (c & Hc & Hn).
  rewrite List.Forall_forall in IH, Hcs.
  destruct (Hcs c Hc) as (_ & _ & Hwc). now apply (IH c Hc).
Qed.

(** X7: in a well-formed tree, at every offset the root covers, both
    resolvers answer, and the node of the rich resolver has the range of the node of
    the greedy resolver and contains it: the two agree on the text that is
    resolved, and differ only when a node and a descendant have the same
    range. *)
Theorem resolvers_agree_on_range root position :
  wellFormed root -> covers position root = true ->
  exists d n,
    findNodeAtPosition root position = Some d
    /\ findMostSpecificNodeAtPosition root position = Some n
    /\ In n (nodes root) /\ In d (nodes n)
    /\ getStart n = getStart d /\ getEnd n = getEnd d.
Proof.
  intros Hwf Hroot.
  pose proof (greedy_result root position) as Hg.
  destruct (findNodeAtPosition root position) as [d |];
    [| congruence].
  destruct Hg as (Hd & _ & Hdc & Hdd).
  assert (Hcand : In d (candidates position root)).
  { rewrite candidates_all by assumption. apply List.filter_In. now split. }
  pose proof (rich_result root position) as Hres.
  destruct (findMostSpecificNodeAtPosition root position) as [n |];
    [| destruct Hres as [_ Hnil]; rewrite Hnil in Hcand; destruct Hcand].
  destruct Hres as (Hn & _ & Hall).
  exists d, n. split; [reflexivity |]. split; [reflexivity |].
  assert (Hnr : In n (nodes root)) by (eapply candidates_nodes; eassumption).
  assert (Hdn : In d (nodes n))
    by (eapply candidates_above; eassumption).
  split; [exact Hnr |]. split; [exact Hdn |].
  rewrite List.Forall_forall in Hall. specialize (Hall d Hcand).
  destruct (nodes_within n (wellFormed_subtree root Hwf n Hnr) d Hdn).
  unfold tighter in Hall. lia.
Qed.

Lemma resolvers_agree_on_range_witness :
  wellFormed callFile /\ covers 1 callFile = true
  /\ exists d n,
       findNodeAtPosition callFile 1 = Some d
       /\ findMostSpecificNodeAtPosition callFile 1 = Some n
       /\ In n (nodes callFile) /\ In d (nodes n)
       /\ getStart n = getStart d /\ getEnd n = getEnd d.
Proof.
  split; [exact callFile_wellFormed |]. split; [reflexivity |].
  exact (resolvers_agree_on_range callFile 1 callFile_wellFormed eq_refl).
Defined.

End ResolveMore.

(** ** More on the session of the rich variant *)

Module SessionMore.

Import Session SessionFacts.

(** *** The file cache and the version table go together *)

(** Every cached path has a version and every versioned path is cached;
    stored versions are at least 1. *)
Definition consistent (st : session) : Prop :=
  dom (fileCache st) =@{gset string} dom (fileVersions st)
  /\ map_Forall (fun _ v => (1 <= v)%N) (fileVersions st).

Lemma consistent_activated : consistent activated.
Proof.
  split; [cbn; now rewrite !dom_empty_L | apply map_Forall_empty].
Qed.

Lemma consistent_fields st st' :
  fileCache st' = fileCache st -> fileVersions st' = fileVersions st ->
  consistent st -> consistent st'.
Proof. unfold consistent. intros -> ->. tauto. Qed.

Lemma consistent_insert st f content v :
  (1 <= v)%N -> consistent st ->
  consistent (setFiles (<[f := content]> (fileCache st))
                       (<[f := v]> (fileVersions st)) st).
Proof.
  intros Hv [Hd Hf]. split; cbn [setFiles fileCache fileVersions].
  - rewrite !dom_insert_L. now rewrite Hd.
  - now apply map_Forall_insert_2.
Qed.

Lemma getScriptSnapshot_consistent fs g st :
  consistent st -> consistent (snd (getScriptSnapshot fs g st)).
Proof.
  intros Hc. unfold getScriptSnapshot.
  destruct (negb (existsSync fs g)); [exact Hc |].
  destruct (fileCache st !! g) as [c |]; [destruct (truthy c); [exact Hc |] |];
    (destruct (readFileSync fs g); [| exact Hc]);
    cbn [snd]; (apply consistent_insert; [lia | exact Hc]).
Qed.

Lemma engineReads_consistent fs names :
  forall st, consistent st -> consistent (engineReads fs names st).
Proof.
  unfold engineReads. induction names as [| g names IH]; intros st Hc; [exact Hc |].
  cbn [fold_left]. apply IH. now apply getScriptSnapshot_consistent.
Qed.

Lemma versionOr1_positive v : (1 <= versionOr1 v)%N.
Proof.
  unfold versionOr1. destruct v as [n |]; [| lia].
  destruct (n =? 0)%N eqn:Hn; [lia |]. apply N.eqb_neq in Hn. lia.
Qed.

Lemma updateFileCache_consistent f content st :
  consistent st -> consistent (updateFileCache f content st).
Proof.
  intros Hc. unfold updateFileCache.
  destruct (negb (bool_decide (fileCache st !! f = Some content))); [| exact Hc].
  apply consistent_insert; [| exact Hc].
  pose proof (versionOr1_positive (fileVersions st !! f)). lia.
Qed.

Section Query.

Context {TypeObj : Type} `{EqDecision TypeObj}.
Variable parent : Resolve.Node -> option Resolve.Node.
Variable getTypeAtLocation : Resolve.Node -> option TypeObj.
Variable typeToString :
  TypeObj -> Resolve.Node -> list TypeFormatFlag -> string.
Variable join : string -> string -> string.
Variable extname : string -> string.
Variable resolveOptions : FS -> string -> CompilerOptions.
Variable getSourceFile : string -> option Resolve.Node.

Abbreviation getVariableType :=
  (getVariableType parent getTypeAtLocation typeToString join extname
     resolveOptions getSourceFile).
Abbreviation ensureService := (ensureService join extname resolveOptions).
Abbreviation renderType := (renderType parent getTypeAtLocation typeToString).

Lemma ensureService_consistent fs run rootPath st :
  consistent st -> consistent (ensureService fs run rootPath st).
Proof.
  intros Hc. unfold Session.ensureService.
  destruct (needsInit rootPath st); [| exact Hc].
  unfold initializeTypeScriptService.
  apply (consistent_fields (engineReads fs (reads run) st)); try reflexivity.
  now apply engineReads_consistent.
Qed.

(** X8: a query keeps the file cache and the version table consistent. *)
Theorem getVariableType_consistent fs run1 run2 document position st :
  consistent st ->
  consistent (snd (getVariableType fs run1 run2 document position st)).
Proof.
  intros Hc.
  rewrite (getVariableType_state parent getTypeAtLocation typeToString join
             extname resolveOptions getSourceFile).
  destruct (workspaceFolder document) as [rootPath |]; [| exact Hc].
  cbn zeta.
  pose proof (ensureService_consistent fs run1 rootPath st Hc) as Hc1.
  destruct (languageService _); [| exact Hc1].
  destruct (typeChecker _); [| exact Hc1].
  now apply engineReads_consistent, updateFileCache_consistent.
Qed.

(** X9: after a query that found the service ready, the cache holds the text
    of the editor for the document, when that text is not empty. *)
Theorem getVariableType_caches_document fs run1 run2 document position st rootPath :
  workspaceFolder document = Some rootPath ->
  getText document <> "" ->
  let st' := snd (getVariableType fs run1 run2 document position st) in
  languageService st' = None \/ typeChecker st' = None
  \/ fileCache st' !! fsPath document = Some (getText document).
Proof.
  intros Hw Hne. cbn zeta.
  rewrite (getVariableType_state parent getTypeAtLocation typeToString join
             extname resolveOptions getSourceFile), Hw.
  cbn zeta. set (st0 := ensureService fs run1 rootPath st).
  destruct (languageService st0) as [ls |] eqn:Hls; [| now left].
  destruct (typeChecker st0) as [tc |] eqn:Htc; [| now right; left].
  right. right.
  apply engineReads_keeps; [| exact Hne].
  unfold updateFileCache.
  destruct (decide (fileCache st0 !! fsPath document = Some (getText document)))
    as [He | Hd].
  - now rewrite (bool_decide_eq_true_2 _ He).
  - rewrite (bool_decide_eq_false_2 _ Hd). cbn [negb].
    rewrite setFiles_cache. apply lookup_insert_eq.
Qed.

(** X11: the service is initialized once per root: a second request for the
    root that is active changes nothing, whatever the disk and the engine
    would do. *)
Theorem ensureService_once fs fs' run run' rootPath st :
  ensureService fs' run' rootPath (ensureService fs run rootPath st)
  = ensureService fs run rootPath st.
Proof.
  apply (ensureService_again join extname resolveOptions).
  apply (ensureService_ready join extname resolveOptions).
Qed.

(** X12: when the service is initialized for a root, the host lists the
    enumeration of that root, at most 1001 files. *)
Theorem ensureService_host_bounded fs run rootPath st :
  needsInit rootPath st = true ->
  exists host,
    serviceHost (ensureService fs run rootPath st) = Some host
    /\ currentDirectory host = rootPath
    /\ scriptFileNames host
       = Enumerate.getAllTsFiles join extname rootPath (readdir fs rootPath)
    /\ length (scriptFileNames host) <= S Enumerate.maxFiles.
Proof.
  intros Hn. unfold Session.ensureService. rewrite Hn.
  eexists. split; [reflexivity |]. cbn [currentDirectory scriptFileNames].
  split; [reflexivity |]. split; [reflexivity |].
  apply EnumerateFacts.getAllTsFiles_length.
Qed.

(** X13: the marker itself is the result exactly when the child renders as the
    marker and the parent offers nothing else: there is no parent, it has no
    type, it has the type object of the child, or it renders as the marker
    too. *)
Theorem renderType_marker node type :
  fst (renderType node type) = "any"
  <-> typeToString type node formatFlags = "any"
      /\ match parent node with
         | Some p =>
             match getTypeAtLocation p with
             | Some parentType =>
                 parentType = type
                 \/ typeToString parentType p formatFlags = "any"
             | None => True
             end
         | None => True
         end.
Proof.
  rewrite (renderType_result parent getTypeAtLocation typeToString).
  destruct (parent node) as [p |]; [| tauto].
  destruct (getTypeAtLocation p) as [parentType |]; [| tauto].
  destruct (String.eqb (typeToString type node formatFlags) "any") eqn:Hc;
    cbn [andb].
  - apply String.eqb_eq in Hc.
    destruct (decide (parentType = type)) as [He | Hd].
    + rewrite (bool_decide_eq_true_2 _ He). cbn [negb andb]. tauto.
    + rewrite (bool_decide_eq_false_2 _ Hd). cbn [negb andb].
      destruct (String.eqb (typeToString parentType p formatFlags) "any") eqn:Hp;
        cbn [negb].
      * apply String.eqb_eq in Hp. tauto.
      * apply String.eqb_neq in Hp. tauto.
  - apply String.eqb_neq in Hc. tauto.
Qed.

End Query.

(** *** Host callbacks *)

(** X14: a snapshot handed to the engine is the text the cache holds
    afterwards; when no snapshot is handed out the session is unchanged. *)
Theorem getScriptSnapshot_agrees_with_cache fs f st :
  match fst (getScriptSnapshot fs f st) with
  | Some content =>
      fileCache (snd (getScriptSnapshot fs f st)) !! f = Some content
  | None => snd (getScriptSnapshot fs f st) = st
  end.
Proof.
  unfold getScriptSnapshot.
  destruct (negb (existsSync fs f)); [reflexivity |].
  destruct (fileCache st !! f) as [c |] eqn:Hc;
    [destruct (truthy c); [exact Hc |] |];
    (destruct (readFileSync fs f); [| reflexivity]);
    cbn [fst snd]; rewrite setFiles_cache; apply lookup_insert_eq.
Qed.

(** X15: an empty document is cached as the empty string, which the host
    callback takes for a missing entry: it reads the file again and sets the
    version back to 1, below the version the update had just given. *)
Theorem empty_text_resets_version fs f st content :
  existsSync fs f = true -> readFileSync fs f = Some content ->
  fileCache st !! f <> Some "" ->
  let st1 := updateFileCache f "" st in
  let st2 := snd (getScriptSnapshot fs f st1) in
  versionNumber st1 f = (versionNumber st f + 1)%N
  /\ versionNumber st2 f = 1%N
  /\ (versionNumber st2 f < versionNumber st1 f)%N
  /\ fileCache st2 !! f = Some content.
Proof.
  intros He Hr Hne. cbn zeta.
  assert (Hst1 : updateFileCache f "" st
                 = setFiles (<[f := ""]> (fileCache st))
                     (<[f := (versionOr1 (fileVersions st !! f) + 1)%N]>
                        (fileVersions st)) st).
  { unfold updateFileCache. now rewrite (bool_decide_eq_false_2 _ Hne). }
  assert (Hv1 : versionNumber (updateFileCache f "" st) f
                = (versionNumber st f + 1)%N).
  { rewrite Hst1. unfold versionNumber. rewrite setFiles_versions, lookup_insert_eq.
    cbn [versionOr1].
    destruct (versionOr1 (fileVersions st !! f) + 1 =? 0)%N eqn:Hz;
      [apply N.eqb_eq in Hz; lia | reflexivity]. }
  assert (Hc1 : fileCache (updateFileCache f "" st) !! f = Some "").
  { rewrite Hst1, setFiles_cache. apply lookup_insert_eq. }
  rewrite (getScriptSnapshot_rereads_empty fs f _ content Hc1 He Hr).
  cbn [snd].
  set (st1 := updateFileCache f "" st) in *.
  assert (Hv2 : versionNumber
                  (setFiles (<[f := content]> (fileCache st1))
                     (<[f := 1%N]> (fileVersions st1)) st1) f = 1%N).
  { unfold versionNumber. now rewrite setFiles_versions, lookup_insert_eq. }
  pose proof (versionOr1_positive (fileVersions st !! f)) as Hp.
  fold (versionNumber st f) in Hp.
  split; [exact Hv1 |]. split; [exact Hv2 |]. split; [rewrite Hv2, Hv1; lia |].
  rewrite setFiles_cache. apply lookup_insert_eq.
Qed.

(** *** The version string *)

Lemma to_uint_nonnil n : N.to_uint n <> Decimal.Nil.
Proof.
  destruct n as [| p]; [discriminate |]. apply DecimalPos.Unsigned.to_uint_nonnil.
Qed.

Lemma version_string_inj a b :
  NilZero.string_of_uint (N.to_uint a) = NilZero.string_of_uint (N.to_uint b) ->
  a = b.
Proof.
  intros Hs. apply (f_equal NilZero.uint_of_string) in Hs.
  rewrite !NilZero.usu in Hs by apply to_uint_nonnil.
  injection Hs as Hs. now apply DecimalN.Unsigned.to_uint_inj.
Qed.

(** X16: the engine sees every change of text: after an update with a text
    that differs from the cached one, the version string the host reports for
    the path is not the one it reported before. *)
Theorem getScriptVersion_changes f content st :
  fileCache st !! f <> Some content ->
  getScriptVersion (updateFileCache f content st) f <> getScriptVersion st f.
Proof.
  intros Hne Hs. unfold getScriptVersion in Hs. apply version_string_inj in Hs.
  revert Hs. unfold updateFileCache, versionNumber.
  rewrite (bool_decide_eq_false_2 _ Hne). cbn [negb].
  rewrite setFiles_versions, lookup_insert_eq. cbn [versionOr1].
  destruct (versionOr1 (fileVersions st !! f) + 1 =? 0)%N eqn:Hz;
    [apply N.eqb_eq in Hz; lia | lia].
Qed.

End SessionMore.

(** *** Queries on the disk with two workspaces *)

Module SessionExamples.

Import Session SessionFacts SessionMore.

Definition documentX : Document :=
  {| fsPath := "/a/x.ts"; getText := "let x = 12";
     workspaceFolder := Some "/a"; offsetAt := fun p => character p |}.

Definition noSourceFile (f : string) : option Resolve.Node := None.

Definition origin : Position := {| line := 0; character := 0 |}.

Definition queryX (st : session) : option string * session :=
  getVariableType toyParent toyType toyString joinModel extnameModel
    defaultOptions noSourceFile twoRoots (readsOf ["/a/x.ts"]) (readsOf [])
    documentX origin st.

Example queryX_versions :
  versionNumber (snd (queryX activated)) "/a/x.ts" = 2%N
  /\ versionNumber (snd (queryX (snd (queryX activated)))) "/a/x.ts" = 2%N
  /\ getScriptVersion (snd (queryX activated)) "/a/x.ts" = "2".
Proof. repeat split; vm_compute; reflexivity. Qed.

Lemma getVariableType_consistent_witness :
  consistent activated /\ consistent (snd (queryX activated)).
Proof.
  split; [exact consistent_activated |].
  exact (getVariableType_consistent toyParent toyType toyString joinModel
           extnameModel defaultOptions noSourceFile twoRoots
           (readsOf ["/a/x.ts"]) (readsOf []) documentX origin activated
           consistent_activated).
Defined.

Lemma getVariableType_caches_document_witness :
  workspaceFolder documentX = Some "/a" /\ getText documentX <> ""
  /\ (languageService (snd (queryX activated)) = None
      \/ typeChecker (snd (queryX activated)) = None
      \/ fileCache (snd (queryX activated)) !! "/a/x.ts" = Some "let x = 12").
Proof.
  assert (Hne : getText documentX <> "") by discriminate.
  split; [reflexivity |]. split; [exact Hne |].
  exact (getVariableType_caches_document toyParent toyType toyString joinModel
           extnameModel defaultOptions noSourceFile twoRoots
           (readsOf ["/a/x.ts"]) (readsOf []) documentX origin activated "/a"
           eq_refl Hne).
Defined.

Lemma repeated_query_keeps_version_witness :
  getText documentX <> ""
  /\ versionNumber (snd (queryX (snd (queryX activated)))) "/a/x.ts"
     = versionNumber (snd (queryX activated)) "/a/x.ts".
Proof.
  assert (Hne : getText documentX <> "") by discriminate.
  split; [exact Hne |].
  exact (proj1 (repeated_query_keeps_version toyParent toyType toyString
                  joinModel extnameModel defaultOptions noSourceFile
                  twoRoots twoRoots (readsOf ["/a/x.ts"]) (readsOf [])
                  (readsOf ["/a/x.ts"]) (readsOf []) documentX origin origin
                  activated Hne)).
Defined.

Lemma ensureService_host_bounded_witness :
  needsInit "/a" activated = true
  /\ exists host,
       serviceHost (ensureService joinModel extnameModel defaultOptions
                      twoRoots (readsOf ["/a/x.ts"]) "/a" activated)
       = Some host
       /\ currentDirectory host = "/a"
       /\ scriptFileNames host
          = Enumerate.getAllTsFiles joinModel extnameModel "/a"
              (readdir twoRoots "/a")
       /\ length (scriptFileNames host) <= S Enumerate.maxFiles.
Proof.
  split; [reflexivity |].
  exact (ensureService_host_bounded joinModel extnameModel defaultOptions
           twoRoots (readsOf ["/a/x.ts"]) "/a" activated eq_refl).
Defined.

Lemma empty_text_resets_version_witness :
  existsSync twoRoots "/a/x.ts" = true
  /\ readFileSync twoRoots "/a/x.ts" = Some "let x = 1"
  /\ fileCache activated !! "/a/x.ts" <> Some ""
  /\ versionNumber (updateFileCache "/a/x.ts" "" activated) "/a/x.ts" = 2%N
  /\ versionNumber
       (snd (getScriptSnapshot twoRoots "/a/x.ts"
               (updateFileCache "/a/x.ts" "" activated))) "/a/x.ts" = 1%N.
Proof.
  assert (Hne : fileCache activated !! "/a/x.ts" <> Some "")
    by (cbn; rewrite lookup_empty; discriminate).
  destruct (empty_text_resets_version twoRoots "/a/x.ts" activated "let x = 1"
              eq_refl eq_refl Hne) as (H1 & H2 & _).
  split; [reflexivity |]. split; [reflexivity |]. split; [exact Hne |].
  split; [exact H1 | exact H2].
Defined.

Lemma getScriptVersion_changes_witness :
  fileCache activated !! "/a/x.ts" <> Some "let x = 12"
  /\ getScriptVersion (updateFileCache "/a/x.ts" "let x = 12" activated) "/a/x.ts"
     <> getScriptVersion activated "/a/x.ts".
Proof.
  assert (Hne : fileCache activated !! "/a/x.ts" <> Some "let x = 12")
    by (cbn; rewrite lookup_empty; discriminate).
  split; [exact Hne |].
  exact (getScriptVersion_changes "/a/x.ts" "let x = 12" activated Hne).
Defined.

End SessionExamples.

(** ** More on the simple variant *)

Module SimpleMore.

Import Session(FS, existsSync, readFileSync, readdir, CompilerOptions,
               EngineRun, reads, hasProgram, hasChecker).
Import Simple SimpleTrace SimpleFacts.



Section Variant.

Variable join : string -> string -> string.
Variable extname : string -> string.
Variable resolveOptions : FS -> string -> CompilerOptions.

Abbreviation initializeTypeScriptService :=
  (initializeTypeScriptService join extname resolveOptions).


End Variant.




End SimpleMore.

(** ** Locating the manifest *)

Module ConfigFacts.

Import Config.

Section Find.

Variable dirname : string -> string.
Variable join : string -> string -> string.
Variable existsSync : string -> bool.

Abbreviation findTsConfigFrom := (findTsConfigFrom dirname join existsSync).
Abbreviation findTsConfig := (findTsConfig dirname join existsSync).
Abbreviation ancestor := (ancestor dirname).

(** A directory that is its own parent: the top of the file system. *)
Definition topmost (path : string) : Prop := path = dirname path.

Definition manifestIn (path : string) : string := join path "tsconfig.json".

(** What a result of the loop means. *)
Definition found (rootPath : string) (r : option string) : Prop :=
  exists k,
    (forall j, j < k ->
       ~ topmost (ancestor j rootPath)
       /\ existsSync (manifestIn (ancestor j rootPath)) = false)
    /\ match r with
       | Some p =>
           p = manifestIn (ancestor k rootPath)
           /\ existsSync p = true
           /\ ~ topmost (ancestor k rootPath)
       | None => topmost (ancestor k rootPath)
       end.

Lemma findTsConfigFrom_found fuel :
  forall path r, findTsConfigFrom fuel path = Some r -> found path r.
Proof.
  induction fuel as [| fuel IH]; intros path r; [discriminate |].
  cbn [Config.findTsConfigFrom].
  destruct (String.eqb path (dirname path)) eqn:Ht.
  - intros [= <-]. apply String.eqb_eq in Ht. exists 0. split; [lia | exact Ht].
  - apply String.eqb_neq in Ht.
    destruct (existsSync (join path "tsconfig.json")) eqn:He.
    + intros [= <-]. exists 0. split; [lia |]. now split.
    + intros Hr. destruct (IH _ _ Hr) as (k & Hbefore & Hk).
      exists (S k). split; [| exact Hk].
      intros [| j] Hj; [now split |]. apply Hbefore. lia.
Qed.

Lemma findTsConfigFrom_returns n :
  forall path,
    topmost (ancestor n path) ->
    exists r, findTsConfigFrom (S n) path = Some r.
Proof.
  induction n as [| n IH]; intros path Htop.
  - cbn in *. unfold topmost in Htop. rewrite <- Htop, String.eqb_refl. eauto.
  - cbn [Config.findTsConfigFrom].
    destruct (String.eqb path (dirname path)); [eauto |].
    destruct (existsSync (join path "tsconfig.json")); [eauto |].
    now apply IH.
Qed.

(** X18: [findTsConfig] returns when some ancestor of the root is the top of the
    file system.  It returns the manifest of the nearest ancestor that holds
    one, the root path included and the top excluded, and null when it reaches
    the top first: a manifest in the topmost directory is never found. *)
Theorem findTsConfig_nearest n rootPath :
  topmost (ancestor n rootPath) ->
  exists r,
    findTsConfig (S n) rootPath = Some r /\ found rootPath r.
Proof.
  intros Htop. destruct (findTsConfigFrom_returns n rootPath Htop) as (r & Hr).
  exists r. split; [exact Hr |]. now apply (findTsConfigFrom_found (S n)).
Qed.

(** More iterations do not change a result. *)
Theorem findTsConfig_stable fuel :
  forall rootPath r more,
    findTsConfig fuel rootPath = Some r ->
    findTsConfig (fuel + more) rootPath = Some r.
Proof.
  unfold Config.findTsConfig.
  induction fuel as [| fuel IH]; intros path r more; [discriminate |].
  cbn [Config.findTsConfigFrom Nat.add].
  destruct (String.eqb path (dirname path)); [trivial |].
  destruct (existsSync (join path "tsconfig.json")); [trivial |].
  apply IH.
Qed.

End Find.

(** A file system with [/], [/home] and [/home/app], and a manifest in [/]
    only. *)
Definition parentOf (path : string) : string :=
  if String.eqb path "/home/app" then "/home"
  else "/".

Definition onlyAtTop (path : string) : bool :=
  String.eqb path "//tsconfig.json".

Example findTsConfig_manifest_at_top :
  findTsConfig parentOf joinModel onlyAtTop 3 "/home/app" = Some None
  /\ onlyAtTop (joinModel "/" "tsconfig.json") = true.
Proof. split; reflexivity. Qed.

Lemma findTsConfig_nearest_witness :
  topmost parentOf (ancestor parentOf 2 "/home/app")
  /\ exists r,
       findTsConfig parentOf joinModel onlyAtTop 3 "/home/app" = Some r
       /\ found parentOf joinModel onlyAtTop "/home/app" r.
Proof.
  assert (Htop : topmost parentOf (ancestor parentOf 2 "/home/app"))
    by reflexivity.
  split; [exact Htop |].
  exact (findTsConfig_nearest parentOf joinModel onlyAtTop 2 "/home/app" Htop).
Defined.

Lemma findTsConfig_stable_witness :
  findTsConfig parentOf joinModel onlyAtTop 3 "/home/app" = Some None
  /\ findTsConfig parentOf joinModel onlyAtTop (3 + 5) "/home/app" = Some None.
Proof.
  split; [reflexivity |].
  exact (findTsConfig_stable parentOf joinModel onlyAtTop 3 "/home/app" None 5
           eq_refl).
Defined.

End ConfigFacts.

(** ** More on the hover variant *)

Module HoverMore.

Import Hover HoverFacts.

Section Variant.

Variable getTypeAtPosition : Document -> Position -> option string.
Variable clipboardAccepts : string -> bool.

Abbreviation copyTypeCommand :=
  (copyTypeCommand getTypeAtPosition clipboardAccepts).
Abbreviation provideHover := (provideHover getTypeAtPosition).

Lemma provideHover_result document position st :
  match fst (provideHover document position st) with
  | Some t =>
      t <> ""
      /\ getTypeAtPosition document position = Some t
      /\ snd (provideHover document position st)
         = {| currentTypeInfo := Some t; currentPosition := Some position |}
  | None => snd (provideHover document position st) = st
  end.
Proof.
  unfold Hover.provideHover.
  destruct (getTypeAtPosition document position) as [t |]; [| reflexivity].
  destruct (truthy t) eqn:Ht; [| reflexivity].
  cbn [fst snd]. split; [now apply truthy_true | now split].
Qed.

(** What a hover at a position of a document shows and stores: the type
    the resolver yields there, when it is not empty. *)
Definition shown (h : Document * Position) : option (string * Position) :=
  match getTypeAtPosition (fst h) (snd h) with
  | Some t => if truthy t then Some (t, snd h) else None
  | None => None
  end.

(** The state after a sequence of hovers. *)
Definition afterHovers (hs : list (Document * Position)) (st : state) : state :=
  fold_left (fun s h => snd (provideHover (fst h) (snd h) s)) hs st.

Lemma afterHovers_snoc hs h st :
  afterHovers (hs ++ [h]) st
  = snd (provideHover (fst h) (snd h) (afterHovers hs st)).
Proof. unfold afterHovers. now rewrite fold_left_app. Qed.

(** X19: after any sequence of hovers the stored pair is the type and the
    position of the most recent hover that yielded a non-empty type; hovers
    that yield nothing, before or after it, change nothing, and when no hover
    of the sequence yielded a type the state is the one the sequence started
    from. *)
Theorem hover_state_is_last_shown hs st :
  match last (omap shown hs) with
  | Some (t, position) =>
      afterHovers hs st
      = {| currentTypeInfo := Some t; currentPosition := Some position |}
      /\ t <> ""
  | None => afterHovers hs st = st
  end.
Proof.
  induction hs as [| h hs IH] using rev_ind; [reflexivity |].
  rewrite afterHovers_snoc, omap_app. cbn [omap list_omap].
  unfold shown at 2. unfold Hover.provideHover.
  destruct (getTypeAtPosition (fst h) (snd h)) as [t |];
    [destruct (truthy t) eqn:Ht |].
  - rewrite last_snoc. cbn [snd]. split; [reflexivity | now apply truthy_true].
  - rewrite app_nil_r. exact IH.
  - rewrite app_nil_r. exact IH.
Qed.

Lemma near_refl position : near position position.
Proof. unfold near. split; [reflexivity | lia]. Qed.

(** X20: hover, then copy: after a hover that showed a type, a copy command
    with the cursor fewer than ten characters away on the same line copies the
    hovered type without resolving again, whatever document the editor
    shows. *)
Theorem copy_after_hover document position st t ed :
  fst (provideHover document position st) = Some t ->
  near position (selectionActive ed) ->
  copyTypeCommand (Some ed) (snd (provideHover document position st))
  = if clipboardAccepts t
    then ([ClipboardWrite t;
           ShowInformationMessage ("Type copied to clipboard: " +:+ t)],
          Returns tt)
    else ([], Throws).
Proof.
  intros Hshown Hnear.
  pose proof (provideHover_result document position st) as Hs.
  rewrite Hshown in Hs. destruct Hs as (Hne & _ & ->).
  unfold Hover.copyTypeCommand.
  rewrite (cachedFor_near t position (selectionActive ed)
             {| currentTypeInfo := Some t; currentPosition := Some position |}
             eq_refl eq_refl Hne).
  destruct (decide (near position (selectionActive ed))); [reflexivity |].
  contradiction.
Qed.

End Variant.

(** A hover in one document, a copy in another. *)
Definition otherDocument : Document :=
  {| fsPath := "/a/y.ts"; getText := "export {}";
     workspaceFolder := Some "/a"; offsetAt := fun p => character p |}.

Definition otherEditor : Editor :=
  {| document := otherDocument; selectionText := "";
     selectionActive := {| line := 0; character := 4 |};
     wordRangeAt := fun _ => None |}.

Definition typeInX (d : Document) (p : Position) : option string :=
  if String.eqb (fsPath d) "/a/x.ts" then Some "number" else None.

Lemma copy_after_hover_witness :
  fst (provideHover typeInX someDocument {| line := 0; character := 0 |}
         activated) = Some "number"
  /\ near {| line := 0; character := 0 |} (selectionActive otherEditor)
  /\ copyTypeCommand typeInX accepts (Some otherEditor)
       (snd (provideHover typeInX someDocument {| line := 0; character := 0 |}
               activated))
     = ([ClipboardWrite "number";
         ShowInformationMessage "Type copied to clipboard: number"],
        Returns tt).
Proof.
  assert (Hn : near {| line := 0; character := 0 |} (selectionActive otherEditor))
    by (unfold near; cbn; split; [reflexivity | lia]).
  split; [reflexivity |]. split; [exact Hn |].
  exact (copy_after_hover typeInX accepts someDocument
           {| line := 0; character := 0 |} activated "number" otherEditor
           eq_refl Hn).
Defined.

End HoverMore.

(** ** More on the command handlers *)

Module CommandMore.

Import Command.

Section Handlers.

Variable getVariableType :
  Document -> Position -> string -> completion (option string).
Variable clipboardAccepts : string -> bool.

Abbreviation copyTypeAtCursor :=
  (copyTypeAtCursor getVariableType clipboardAccepts).
Abbreviation copyVariableType :=
  (copyVariableType getVariableType clipboardAccepts).

(** What justifies a clipboard write: an editor, a non-empty selection or
    word, and a resolver that returned that text, not empty, for it. *)
Definition resolvedTo (editor : option Editor) (text : string) : Prop :=
  exists ed,
    editor = Some ed
    /\ fst (target ed) <> ""
    /\ getVariableType (document ed) (snd (target ed)) (fst (target ed))
       = Returns (Some text)
    /\ text <> ""
    /\ clipboardAccepts text = true.

Lemma in_progress_tail (shown : list effect) text tail :
  Forall (fun e => Command.isOutcome e = false) shown ->
  In (ClipboardWrite text) (shown ++ tail) -> In (ClipboardWrite text) tail.
Proof.
  intros Hs Hin. apply in_app_or in Hin as [Hin | Hin]; [| exact Hin].
  rewrite List.Forall_forall in Hs. specialize (Hs _ Hin). discriminate.
Qed.

(** X21: the handlers write to the clipboard nothing but a non-empty text the
    resolver returned for the selection or the word at the cursor. *)
Theorem clipboard_holds_resolved_type editor text :
  In (ClipboardWrite text) (fst (copyTypeAtCursor editor))
  \/ In (ClipboardWrite text) (fst (copyVariableType editor)) ->
  resolvedTo editor text.
Proof.
  unfold Command.copyTypeAtCursor, Command.copyVariableType, resolvedTo.
  destruct editor as [ed |];
    [| intros [[H | []] | [H | []]]; discriminate].
  destruct (target ed) as [selectedText position] eqn:Htarget. cbn [fst snd].
  destruct (truthy selectedText) eqn:Hsel; cbn [negb];
    [| intros [[H | []] | [H | []]]; discriminate].
  apply truthy_true in Hsel.
  destruct (getVariableType (document ed) position selectedText)
    as [[t |] |] eqn:Hres.
  - destruct (truthy t) eqn:Ht.
    + apply truthy_true in Ht.
      destruct (clipboardAccepts t) eqn:Hclip.
      * intros Hin. assert (text = t) as ->.
        { destruct Hin as [Hin | Hin].
          - apply in_progress_tail in Hin; [| repeat constructor].
            destruct Hin as [[= ->] | [H | []]]; [reflexivity | discriminate].
          - destruct Hin as [[= ->] | [H | []]]; [reflexivity | discriminate]. }
        exists ed. split; [reflexivity |]. rewrite Htarget. cbn [fst snd].
        split; [exact Hsel |]. split; [exact Hres |]. split; [exact Ht | exact Hclip].
      * intros [Hin | [H | []]]; [| discriminate].
        apply in_progress_tail in Hin; [| repeat constructor].
        destruct Hin as [H | []]; discriminate.
    + intros [Hin | [H | []]]; [| discriminate].
      apply in_progress_tail in Hin; [| repeat constructor].
      destruct Hin as [H | []]; discriminate.
  - intros [Hin | [H | []]]; [| discriminate].
    apply in_progress_tail in Hin; [| repeat constructor].
    destruct Hin as [H | []]; discriminate.
  - intros [Hin | [H | []]]; [| discriminate].
    apply in_progress_tail in Hin; [| repeat constructor].
    destruct Hin as [H | []]; discriminate.
Qed.

End Handlers.

(** A cursor on the word [total], nothing selected. *)
Definition onTotal : Editor :=
  {| document := HoverFacts.someDocument; selectionText := "";
     selectionActive := {| line := 0; character := 8 |};
     wordRangeAt := fun _ => Some ({| line := 0; character := 6 |}, "total") |}.

(** The resolver knows the word at column 6 only. *)
Definition resolveTotal (d : Document) (p : Position) (name : string)
  : completion (option string) :=
  if (character p =? 6)%N && String.eqb name "total"
  then Returns (Some "number") else Returns None.

Example copyTypeAtCursor_word :
  copyTypeAtCursor resolveTotal HoverFacts.accepts (Some onTotal)
  = ([Progress "Getting type information..."; Progress "Analyzing code...";
      Progress "Complete"; ClipboardWrite "number";
      ShowInformationMessage "Type copied: number"],
     Returns tt).
Proof. reflexivity. Qed.

Lemma clipboard_holds_resolved_type_witness :
  In (ClipboardWrite "number")
     (fst (copyTypeAtCursor resolveTotal HoverFacts.accepts (Some onTotal)))
  /\ resolvedTo resolveTotal HoverFacts.accepts (Some onTotal) "number".
Proof.
  assert (Hin : In (ClipboardWrite "number")
                  (fst (copyTypeAtCursor resolveTotal HoverFacts.accepts
                          (Some onTotal))))
    by (cbn; tauto).
  split; [exact Hin |].
  exact (clipboard_holds_resolved_type resolveTotal HoverFacts.accepts
           (Some onTotal) "number" (or_introl Hin)).
Defined.

End CommandMore.
